(** * notify-tail: the line assembler and the watch lifecycle

    A shallow embedding of [notify-tail.c].  The C program keeps a linked
    list of [struct file_watch] records, one per tailed file and one per
    directory it waits on, reads appended bytes into a fixed line buffer
    and hands every finished line to [handle_line].

    Conventions of the embedding:
    - a [char] is an [ascii]; a [char] array and a C string are
      [list ascii], the terminating NUL written out where the code relies
      on it;
    - [size_t] cursors are [nat]; the lemmas of the section on bounds show
      that no subtraction the code performs goes below zero, so truncated
      subtraction never hides a wrap-around;
    - [int] and [off_t] values (descriptors, watch descriptors, offsets,
      event masks) are [Z];
    - the linked list is a [list file_watch] in link order and a pointer to
      a record is its index in that list;
    - the kernel (files, descriptors, inotify) is an explicit [world] that
      every system call reads and updates;
    - calls to [handle_line], diagnostics and entries into [reinit_file]
      are recorded, in program order, in a list of [event]s. *)

From Stdlib Require Import ZArith Ascii String List Lia.
From stdpp Require Import base tactics option list strings gmap.
Import ListNotations.

Local Open Scope nat_scope.

(** ** Characters and C strings *)

Definition NUL : ascii := "000"%char.
Definition NL : ascii := "010"%char.
Definition SLASH : ascii := "/"%char.

(** [#define LINE_BUFFER_SIZE 4096] *)
Definition LINE_BUFFER_SIZE : nat := 4096.

(** The C string that starts at the head of [s]: the bytes before the
    first NUL. *)
Fixpoint cstring (s : list ascii) : list ascii :=
  match s with
  | [] => []
  | c :: s' => if (c =? NUL)%char then [] else c :: cstring s'
  end.

(** The C string a pointer [data + start] denotes. *)
Definition cstring_at (data : list ascii) (start : nat) : list ascii :=
  cstring (drop start data).

(** [strchr(s, c)] for [c <> NUL], as an offset from [s]: the scan stops at
    the first [c] or at the terminating NUL, whichever comes first. *)
Fixpoint strchr_rel (s : list ascii) (c : ascii) : option nat :=
  match s with
  | [] => None
  | x :: s' =>
      if (x =? c)%char then Some 0
      else if (x =? NUL)%char then None
      else S <$> strchr_rel s' c
  end.

(** [strchr(data + start, c)], as an index into [data]. *)
Definition strchr (data : list ascii) (start : nat) (c : ascii) : option nat :=
  (λ k, start + k) <$> strchr_rel (drop start data) c.

(** [strrchr(s, c)]: the index of the last [c]. *)
Fixpoint strrchr (s : list ascii) (c : ascii) : option nat :=
  match s with
  | [] => None
  | x :: s' =>
      match strrchr s' c with
      | Some k => Some (S k)
      | None => if (x =? c)%char then Some 0 else None
      end
  end.

(** Equality of two NUL-free C strings, [strcmp(a, b) == 0]. *)
Definition strcmp_eq (a b : list ascii) : bool := bool_decide (a = b).

(** [strncmp(a, b, n) == 0] on NUL-free C strings: the first [n]
    characters agree, a shorter string only matching one equally short. *)
Definition strncmp_eq (a b : list ascii) (n : nat) : bool :=
  bool_decide (take n a = take n b).

(** Writing [bs] into the array from index [pos] on. *)
Definition store_bytes (data : list ascii) (pos : nat) (bs : list ascii) : list ascii :=
  take pos data ++ bs ++ drop (pos + length bs) data.

(** [memmove(data, data + offset, n)]. *)
Definition memmove_front (data : list ascii) (offset n : nat) : list ascii :=
  take n (drop offset data) ++ drop n data.

(** ** The watch record *)

(** [struct file_watch].  The [next] link is the order of the registry
    list.  [kind_is_file] is not a field of the C struct: it remembers the
    [is_file] argument [init_watch] was called with, so that statements can
    tell file watches from directory watches; no modelled function reads
    it. *)
Record file_watch := FileWatch {
  watch_desc : Z;
  parent : option nat;
  name : list ascii;
  fd : Z;
  file_offset : Z;
  line_buffer_data : list ascii;
  line_buffer_pos : nat;
  kind_is_file : bool
}.

Definition set_buffer (w : file_watch) (data : list ascii) (pos : nat) : file_watch :=
  FileWatch (watch_desc w) (parent w) (name w) (fd w) (file_offset w)
            data pos (kind_is_file w).

Definition set_file_offset (w : file_watch) (off : Z) : file_watch :=
  FileWatch (watch_desc w) (parent w) (name w) (fd w) off
            (line_buffer_data w) (line_buffer_pos w) (kind_is_file w).

Definition set_fd (w : file_watch) (d : Z) : file_watch :=
  FileWatch (watch_desc w) (parent w) (name w) d (file_offset w)
            (line_buffer_data w) (line_buffer_pos w) (kind_is_file w).

Definition set_watch_desc (w : file_watch) (wd : Z) : file_watch :=
  FileWatch wd (parent w) (name w) (fd w) (file_offset w)
            (line_buffer_data w) (line_buffer_pos w) (kind_is_file w).

Definition set_parent (w : file_watch) (p : option nat) : file_watch :=
  FileWatch (watch_desc w) p (name w) (fd w) (file_offset w)
            (line_buffer_data w) (line_buffer_pos w) (kind_is_file w).

(** ** Observable events *)

Inductive event :=
| HandleLine (nm line : list ascii)   (* handle_line(watch, line) is called *)
| LogLongLine (nm : list ascii)       (* "Line longer than %d characters, splitting up" *)
| LogReadError (nm : list ascii)      (* "Error while reading from '%s'" *)
| LogTruncated (nm : list ascii)      (* "Warning: '%s' was truncated" *)
| LogOpenFailed (nm : list ascii)     (* "Could not open '%s'" *)
| LogWatchFailed (nm : list ascii)    (* "Failed to add watch for '%s'" *)
| LogUnhandled (mask : Z) (nm : list ascii)  (* "Unhandled event 0x%08x" *)
| LogUnknownWatch (mask wd : Z)       (* "Event %08x for unknown watch descriptor %d!" *)
| CallReinit (idx : nat).             (* reinit_file(watch) is entered *)

(** [handle_line] returns at once on an empty line and shows one
    notification otherwise. *)
Definition handle_line_shows (line : list ascii) : bool :=
  match line with
  | [] => false
  | _ :: _ => true
  end.

Definition handled_line (e : event) : option (list ascii) :=
  match e with
  | HandleLine _ l => Some l
  | _ => None
  end.

(** The arguments of the calls to [handle_line], in order. *)
Definition handled_lines (evs : list event) : list (list ascii) :=
  omap handled_line evs.

Definition is_long_line_log (e : event) : bool :=
  match e with
  | LogLongLine _ => true
  | _ => false
  end.

(** How many forced splits a run logged. *)
Definition forced_splits (evs : list event) : nat :=
  length (filter (λ e, is_long_line_log e = true) evs).

Definition reinit_call (e : event) : option nat :=
  match e with
  | CallReinit i => Some i
  | _ => None
  end.

(** The records [reinit_file] was entered for, in order. *)
Definition reinit_calls (evs : list event) : list nat :=
  omap reinit_call evs.

(** ** The line assembler: [do_read] and [handle_lines] *)

(** What [read(fd, buf, count)] returned: a negative value, or the bytes it
    stored ([ret] is their number, zero at end of file). *)
Inductive read_result :=
| ReadError
| ReadData (bs : list ascii).

(** The [count] that [do_read] passes to [read]. *)
Definition read_count (w : file_watch) : nat :=
  LINE_BUFFER_SIZE - line_buffer_pos w - 1.

(** [do_read], given the outcome of its [read] call. *)
Definition do_read (w : file_watch) (ret : read_result) : file_watch * bool * list event :=
  match ret with
  | ReadError => (w, false, [LogReadError (name w)])
  | ReadData [] => (w, false, [])
  | ReadData bs =>
      let pos := line_buffer_pos w + length bs in
      let data := store_bytes (line_buffer_data w) (line_buffer_pos w) bs in
      (set_buffer w (<[pos := NUL]> data) pos, true, [])
  end.

(** The [while (end != NULL)] loop of [handle_lines]: [start] is the index
    the pointer of that name has reached.  Every round moves [start]
    forward by at least one, so [LINE_BUFFER_SIZE] rounds are enough for a
    buffer of that size (lemma [handle_lines_loop_fuel]). *)
Fixpoint handle_lines_loop (fuel : nat) (nm data : list ascii) (start : nat)
    : list ascii * nat * list event :=
  match fuel with
  | 0 => (data, start, [])
  | S fuel' =>
      match strchr data start NL with
      | None => (data, start, [])
      | Some e =>
          let data' := <[e := NUL]> data in
          let '(data'', start', evs) := handle_lines_loop fuel' nm data' (S e) in
          (data'', start', HandleLine nm (cstring_at data' start) :: evs)
      end
  end.

(** The block [if (start != watch->line_buffer_data)]: the bytes after the
    last finished line move to the front of the buffer. *)
Definition shift_residual (w : file_watch) (data : list ascii) (start : nat) : file_watch :=
  if bool_decide (start ≠ 0) then
    let offset := start in
    let pos := line_buffer_pos w in
    let data' := if bool_decide (offset < pos)
                 then memmove_front data offset (pos - offset) else data in
    set_buffer w data' (line_buffer_pos w - offset)
  else set_buffer w data (line_buffer_pos w).

(** The block [if (watch->line_buffer_pos >= LINE_BUFFER_SIZE - 1)]. *)
Definition split_long_line (w : file_watch) : file_watch * list event :=
  if bool_decide (LINE_BUFFER_SIZE - 1 ≤ line_buffer_pos w) then
    (set_buffer w (line_buffer_data w) 0,
     [LogLongLine (name w); HandleLine (name w) (cstring_at (line_buffer_data w) 0)])
  else (w, []).

Definition handle_lines (w : file_watch) : file_watch * list event :=
  let '(data, start, evs) :=
    handle_lines_loop LINE_BUFFER_SIZE (name w) (line_buffer_data w) 0 in
  let '(w2, evs2) := split_long_line (shift_residual w data start) in
  (w2, evs ++ evs2).

(** One round of the loop [while (do_read(watch)) handle_lines(watch);]. *)
Definition feed (w : file_watch) (ret : read_result) : file_watch * bool * list event :=
  let '(w1, ok, evs1) := do_read w ret in
  if ok then let '(w2, evs2) := handle_lines w1 in (w2, true, evs1 ++ evs2)
  else (w1, false, evs1).

(** Reading a byte stream [s] through the assembler.  [ns] lists how many
    bytes the kernel is willing to return at each successive [read]; the
    call itself never returns more than the [count] it was given, nor more
    than what is left of the stream. *)
Fixpoint read_stream (w : file_watch) (s : list ascii) (ns : list nat)
    : file_watch * list event * list ascii :=
  match ns with
  | [] => (w, [], s)
  | n :: ns' =>
      let c := take (n `min` read_count w) s in
      let '(w1, _, evs1) := feed w (ReadData c) in
      let '(w2, evs2, rest) := read_stream w1 (drop (length c) s) ns' in
      (w2, evs1 ++ evs2, rest)
  end.

(** A record as [calloc] and [init_watch] leave it. *)
Definition fresh_watch (nm : list ascii) (isf : bool) (wd : Z) : file_watch :=
  FileWatch wd None nm (-1) 0 (replicate LINE_BUFFER_SIZE NUL) 0 isf.

Definition chars (s : string) : list ascii := list_ascii_of_string s.

(** ** The kernel: files, descriptors and inotify watches *)

(** Event bits of [<sys/inotify.h>] that the program uses. *)
Definition IN_MODIFY : Z := 0x2.
Definition IN_MOVED_TO : Z := 0x80.
Definition IN_CREATE : Z := 0x100.
Definition IN_DELETE_SELF : Z := 0x400.
Definition IN_MOVE_SELF : Z := 0x800.
Definition IN_IGNORED : Z := 0x8000.

Inductive inode :=
| Regular (content : list ascii)
| Directory.

(** The kernel state the program can observe.  Path names resolve to inode
    numbers exactly as spelled; a descriptor holds an inode and a file
    position and so survives the removal of the name it was opened under;
    [open] hands out the lowest descriptor number that is free, the
    numbers below [first_fd] being taken (standard streams, the inotify
    descriptor); watch descriptors come from a counter and are not reused;
    [max_user_watches] is the kernel's limit on the number of inotify
    watches, past which [inotify_add_watch] fails. *)
Record world := World {
  paths : gmap (list ascii) nat;
  inodes : gmap nat inode;
  descriptors : gmap Z (nat * nat);
  first_fd : Z;
  inotify_watches : gmap Z (nat * Z);
  next_wd : Z;
  max_user_watches : nat
}.

Definition set_descriptors (k : world) (ds : gmap Z (nat * nat)) : world :=
  World (paths k) (inodes k) ds (first_fd k) (inotify_watches k) (next_wd k)
        (max_user_watches k).

Definition set_inotify_watches (k : world) (ws : gmap Z (nat * Z)) (nwd : Z) : world :=
  World (paths k) (inodes k) (descriptors k) (first_fd k) ws nwd (max_user_watches k).

Definition set_files (k : world) (ps : gmap (list ascii) nat) (ins : gmap nat inode) : world :=
  World ps ins (descriptors k) (first_fd k) (inotify_watches k) (next_wd k) (max_user_watches k).

Definition inode_size (i : inode) : nat :=
  match i with
  | Regular content => length content
  | Directory => 0
  end.

(** The lowest number from [d] upwards that is not an open descriptor:
    with [fuel] descriptors open, one of the [fuel + 1] numbers from [d] on
    is free (lemma [lowest_free_spec]). *)
Fixpoint lowest_free (fuel : nat) (ds : gmap Z (nat * nat)) (d : Z) : Z :=
  match fuel with
  | 0 => d
  | S fuel' =>
      match ds !! d with
      | None => d
      | Some _ => lowest_free fuel' ds (d + 1)%Z
      end
  end.

(** [open(path, O_RDONLY)] returns the lowest descriptor number that is
    not in use. *)
Definition sys_open (k : world) (path : list ascii) : Z * world :=
  match paths k !! path with
  | None => (-1, k)%Z
  | Some ino =>
      let d := lowest_free (size (descriptors k)) (descriptors k) (first_fd k) in
      (d, set_descriptors k (<[d := (ino, 0)]> (descriptors k)))
  end.

(** [close(fd)] *)
Definition sys_close (k : world) (d : Z) : world :=
  set_descriptors k (delete d (descriptors k)).

(** [read(fd, buf, count)] on a regular file returns what is there, up to
    [count] bytes, and advances the file position. *)
Definition sys_read (k : world) (d : Z) (count : nat) : read_result * world :=
  match descriptors k !! d with
  | None => (ReadError, k)
  | Some (ino, pos) =>
      match inodes k !! ino with
      | Some (Regular content) =>
          let bs := take count (drop pos content) in
          (ReadData bs,
           set_descriptors k (<[d := (ino, pos + length bs)]> (descriptors k)))
      | _ => (ReadError, k)
      end
  end.

(** [fstat(fd, &buf)], the [st_size] it fills in. *)
Definition sys_fstat_size (k : world) (d : Z) : option nat :=
  match descriptors k !! d with
  | None => None
  | Some (ino, _) => inode_size <$> inodes k !! ino
  end.

Inductive whence := SEEK_SET | SEEK_CUR | SEEK_END.

(** [lseek(fd, 0, whence)]: the program only ever seeks by offset zero. *)
Definition sys_lseek0 (k : world) (d : Z) (wh : whence) : Z * world :=
  match descriptors k !! d with
  | None => (-1, k)%Z
  | Some (ino, pos) =>
      let size := default 0 (inode_size <$> inodes k !! ino) in
      let pos' := match wh with
                  | SEEK_SET => 0
                  | SEEK_CUR => pos
                  | SEEK_END => size
                  end in
      (Z.of_nat pos',
       set_descriptors k (<[d := (ino, pos')]> (descriptors k)))
  end.

(** The watch descriptor already attached to an inode, if any. *)
Definition watch_of_inode (k : world) (ino : nat) : option Z :=
  match list_find (λ e : Z * (nat * Z), e.2.1 = ino) (map_to_list (inotify_watches k)) with
  | Some (_, (wd, _)) => Some wd
  | None => None
  end.

(** [inotify_add_watch(inotify_fd, path, mask)]: a second watch on the same
    inode replaces the mask and returns the same descriptor. *)
Definition sys_inotify_add_watch (k : world) (path : list ascii) (mask : Z) : Z * world :=
  match paths k !! path with
  | None => (-1, k)%Z
  | Some ino =>
      match watch_of_inode k ino with
      | Some wd =>
          (wd, set_inotify_watches k (<[wd := (ino, mask)]> (inotify_watches k)) (next_wd k))
      | None =>
          if bool_decide (max_user_watches k ≤ size (inotify_watches k)) then (-1, k)%Z
          else (next_wd k,
                set_inotify_watches k (<[next_wd k := (ino, mask)]> (inotify_watches k))
                                    (next_wd k + 1)%Z)
      end
  end.

(** [inotify_rm_watch(inotify_fd, wd)] *)
Definition sys_inotify_rm_watch (k : world) (wd : Z) : world :=
  set_inotify_watches k (delete wd (inotify_watches k)) (next_wd k).

(** What other processes do to the file system. *)
Definition fresh_inode (k : world) : nat := size (inodes k).

Definition ext_create (k : world) (path : list ascii) (node : inode) : world :=
  set_files k (<[path := fresh_inode k]> (paths k)) (<[fresh_inode k := node]> (inodes k)).

Definition ext_set_content (k : world) (path : list ascii) (f : list ascii → list ascii) : world :=
  match paths k !! path with
  | None => k
  | Some ino =>
      match inodes k !! ino with
      | Some (Regular content) => set_files k (paths k) (<[ino := Regular (f content)]> (inodes k))
      | _ => k
      end
  end.

Definition ext_append (k : world) (path bs : list ascii) : world :=
  ext_set_content k path (λ content, content ++ bs).

Definition ext_truncate (k : world) (path : list ascii) (n : nat) : world :=
  ext_set_content k path (take n).

(** ** The registry and the watch lifecycle *)

(** [file_watches], [inotify_fd] and the world behind them, with the
    events observed so far. *)
Record state := State {
  registry : list file_watch;
  kernel : world;
  trace : list event
}.

Definition set_entry (st : state) (i : nat) (w : file_watch) : state :=
  State (<[i := w]> (registry st)) (kernel st) (trace st).

Definition set_kernel (st : state) (k : world) : state :=
  State (registry st) k (trace st).

Definition log (st : state) (evs : list event) : state :=
  State (registry st) (kernel st) (trace st ++ evs).

(** [find_watch]: the first record with this watch descriptor. *)
Definition find_watch (st : state) (wd : Z) : option nat :=
  match list_find (λ w, watch_desc w = wd) (registry st) with
  | Some (i, _) => Some i
  | None => None
  end.

(** [find_watch_by_name]: the first record with this name. *)
Definition find_watch_by_name (st : state) (nm : list ascii) : option nat :=
  match list_find (λ w, strcmp_eq (name w) nm = true) (registry st) with
  | Some (i, _) => Some i
  | None => None
  end.

(** [init_watch]: the new record is linked at the tail, then a directory
    gets its kernel watch at once. *)
Definition init_watch (st : state) (nm : list ascii) (isf : bool) : state * nat :=
  let idx := length (registry st) in
  let st1 := State (registry st ++ [fresh_watch nm isf 0]) (kernel st) (trace st) in
  if negb isf then
    let '(wd, k) := sys_inotify_add_watch (kernel st1) nm (Z.lor IN_CREATE IN_MOVED_TO) in
    (set_entry (set_kernel st1 k) idx (fresh_watch nm isf wd), idx)
  else
    (set_entry st1 idx (fresh_watch nm isf (-1)), idx).

Definition wait_for_parent (st : state) (i : nat) : state :=
  match registry st !! i with
  | None => st
  | Some w =>
      match parent w with
      | Some _ => st
      | None =>
          match strrchr (name w) SLASH with
          | Some e =>
              let path := take e (name w) in
              match find_watch_by_name st path with
              | Some p => set_entry st i (set_parent w (Some p))
              | None =>
                  let '(st1, p) := init_watch st path false in
                  set_entry st1 i (set_parent w (Some p))
              end
          | None => st
          end
      end
  end.

Definition file_deleted (st : state) (i : nat) : state :=
  match registry st !! i with
  | None => st
  | Some w =>
      let k1 := sys_inotify_rm_watch (kernel st) (watch_desc w) in
      let k2 := sys_close k1 (fd w) in
      let w' := FileWatch (-1) (parent w) (name w) (-1) 0 (line_buffer_data w) 0
                          (kind_is_file w) in
      set_entry (set_kernel st k2) i w'
  end.

Definition reinit_file (st : state) (i : nat) : state :=
  match registry st !! i with
  | None => st
  | Some w =>
      let st0 := log st [CallReinit i] in
      let k1 := if bool_decide (0 ≤ fd w)%Z then sys_close (kernel st0) (fd w)
                else kernel st0 in
      let k2 := if bool_decide (0 ≤ watch_desc w)%Z then sys_inotify_rm_watch k1 (watch_desc w)
                else k1 in
      let st1 := set_entry (set_kernel st0 k2) i (set_watch_desc (set_fd w (-1)) (-1)) in
      let st2 := wait_for_parent st1 i in
      match registry st2 !! i with
      | None => st2
      | Some w2 =>
          let '(d, k3) := sys_open (kernel st2) (name w2) in
          if bool_decide (d < 0)%Z then log (set_kernel st2 k3) [LogOpenFailed (name w2)]
          else
            let '(wd, k4) :=
              sys_inotify_add_watch k3 (name w2)
                (Z.lor IN_MODIFY (Z.lor IN_MOVE_SELF IN_DELETE_SELF)) in
            let w3 := set_watch_desc (set_fd w2 d) wd in
            if bool_decide (0 ≤ wd)%Z then
              let '(off, k5) := sys_lseek0 k4 d SEEK_END in
              set_entry (set_kernel st2 k5) i (set_file_offset w3 off)
            else
              log (set_entry (set_kernel st2 k4) i w3) [LogWatchFailed (name w2)]
      end
  end.

Definition init_file (st : state) (nm : list ascii) : state * bool :=
  let '(st1, idx) := init_watch st nm true in
  (reinit_file st1 idx, true).

Fixpoint init_files (st : state) (names : list (list ascii)) : state * bool :=
  match names with
  | [] => (st, true)
  | nm :: names' =>
      let '(st1, ok) := init_file st nm in
      if ok then init_files st1 names' else (st1, false)
  end.

(** The test of [file_appeared]: [dir] is a prefix of the record's name
    and what follows it, leading slashes skipped, is the child name. *)
Fixpoint skip_slashes (s : list ascii) : list ascii :=
  match s with
  | c :: s' => if (c =? SLASH)%char then skip_slashes s' else s
  | [] => []
  end.

Definition appeared_match (dir file_name child : list ascii) : bool :=
  strncmp_eq dir file_name (length dir)
  && strcmp_eq (skip_slashes (drop (length dir) file_name)) child.

(** An upper bound on the number of records the walk of [file_appeared]
    can visit: a visit may link one new directory record at the tail, whose
    name is strictly shorter than the visited one's (lemma
    [file_appeared_loop_fuel]). *)
Definition walk_budget (reg : list file_watch) : nat :=
  sum_list ((λ w, S (length (name w))) <$> reg).

(** The [while (file != NULL)] walk, [j] being the index [file] points to. *)
Fixpoint file_appeared_loop (fuel : nat) (st : state) (dir child : list ascii) (j : nat)
    : state :=
  match fuel with
  | 0 => st
  | S fuel' =>
      match registry st !! j with
      | None => st
      | Some file =>
          let st' := if appeared_match dir (name file) child
                     then reinit_file st j else st in
          file_appeared_loop fuel' st' dir child (S j)
      end
  end.

Definition file_appeared (st : state) (i : nat) (child : list ascii) : state :=
  match registry st !! i with
  | None => st
  | Some watch =>
      file_appeared_loop (walk_budget (registry st)) st (name watch) child 0
  end.

(** The loop [while (do_read(watch)) handle_lines(watch);] on the
    descriptor of [w]. *)
Fixpoint read_loop (fuel : nat) (k : world) (w : file_watch)
    : world * file_watch * list event :=
  match fuel with
  | 0 => (k, w, [])
  | S fuel' =>
      let '(ret, k1) := sys_read k (fd w) (read_count w) in
      let '(w1, ok, evs1) := feed w ret in
      if ok then
        let '(k2, w2, evs2) := read_loop fuel' k1 w1 in (k2, w2, evs1 ++ evs2)
      else (k1, w1, evs1)
  end.

(** The bytes between the file position of a descriptor and the end of its
    file: every successful [do_read] consumes at least one of them. *)
Definition bytes_left (k : world) (d : Z) : nat :=
  match descriptors k !! d with
  | None => 0
  | Some (ino, pos) => default 0 (inode_size <$> inodes k !! ino) - pos
  end.

(** The first statements of [read_watch]: [fstat], the truncation test and
    the [lseek] back to the start.  When [fstat] fails the C code compares
    an uninitialised size; the model then leaves the position alone. *)
Definition read_watch_rewind (k : world) (w : file_watch) : world * list event :=
  match sys_fstat_size k (fd w) with
  | Some size =>
      if bool_decide (Z.of_nat size < file_offset w)%Z
      then ((sys_lseek0 k (fd w) SEEK_SET).2, [LogTruncated (name w)])
      else (k, [])
  | None => (k, [])
  end.

Definition read_watch (st : state) (i : nat) : state :=
  match registry st !! i with
  | None => st
  | Some w =>
      let '(k1, evs0) := read_watch_rewind (kernel st) w in
      let '(k2, w2, evs) := read_loop (S (bytes_left k1 (fd w))) k1 w in
      let '(off, k3) := sys_lseek0 k2 (fd w2) SEEK_CUR in
      log (set_entry (set_kernel st k3) i (set_file_offset w2 off)) (evs0 ++ evs)
  end.

Definition has_bits (mask bits : Z) : bool := negb (Z.land mask bits =? 0)%Z.

Definition handle_event (st : state) (i : nat) (child : list ascii) (mask : Z) : state :=
  let '(st1, mask1) :=
    if has_bits mask IN_MODIFY
    then (read_watch st i, Z.ldiff mask IN_MODIFY) else (st, mask) in
  let '(st2, mask2) :=
    if has_bits mask1 IN_CREATE || has_bits mask1 IN_MOVED_TO
    then (file_appeared st1 i child, Z.ldiff mask1 (Z.lor IN_CREATE IN_MOVED_TO))
    else (st1, mask1) in
  let '(st3, mask3) :=
    if has_bits mask2 IN_DELETE_SELF || has_bits mask2 IN_MOVE_SELF
    then (file_deleted st2 i, Z.ldiff mask2 (Z.lor IN_DELETE_SELF IN_MOVE_SELF))
    else (st2, mask2) in
  let mask4 := Z.ldiff mask3 IN_IGNORED in
  if (mask4 =? 0)%Z then st3
  else log st3 [LogUnhandled mask4 (default [] (name <$> registry st3 !! i))].

(** A decoded [struct inotify_event]. *)
Record inotify_event := InotifyEvent {
  ev_wd : Z;
  ev_mask : Z;
  ev_name : list ascii
}.

(** The body of the loop of [read_events], for one decoded event. *)
Definition dispatch (st : state) (ev : inotify_event) : state :=
  match find_watch st (ev_wd ev) with
  | Some i => handle_event st i (ev_name ev) (ev_mask ev)
  | None => log st [LogUnknownWatch (ev_mask ev) (ev_wd ev)]
  end.

(** [read_events] on one batch of decoded events. *)
Definition read_events (st : state) (batch : list inotify_event) : state :=
  foldl dispatch st batch.

(** How [main] leaves its start-up code: it returns a status, or it enters
    [do { read_events(); } while (true)] in some state. *)
Inductive startup :=
| Exited (status : Z)
| EntersLoop (st : state).

(** [main], up to the event loop.  [inotify_ok] tells whether
    [inotify_init] succeeded; [args] is [argv[1..]]. *)
Definition main (k : world) (inotify_ok : bool) (args : list (list ascii)) : startup :=
  if negb inotify_ok then Exited (-1)
  else
    let '(st, ok) := init_files (State [] k []) args in
    if negb ok then Exited (-1) else EntersLoop st.

(** The state after the event loop has consumed these batches. *)
Definition event_loop (st : state) (batches : list (list inotify_event)) : state :=
  foldl read_events st batches.

(** One step of a run of the event loop: the program handles one decoded
    event, or, while it waits, other processes change what the kernel
    holds.  The change [f] is arbitrary, so the runs include every change
    other processes can make to the files (creation, appends, truncation,
    removal, renaming), between any two events. *)
Inductive loop_step :=
| Handles (ev : inotify_event)
| Meanwhile (f : world → world).

Definition run_step (st : state) (s : loop_step) : state :=
  match s with
  | Handles ev => dispatch st ev
  | Meanwhile f => set_kernel st (f (kernel st))
  end.

(** The state after the event loop has gone through these steps. *)
Definition run_loop (st : state) (steps : list loop_step) : state :=
  foldl run_step st steps.

(** ** Reference behaviour of the assembler *)

(** Cutting a byte sequence at every newline: [cur] is the line under
    construction; the result is the finished lines and the unfinished
    rest. *)
Fixpoint split_from (cur s : list ascii) : list (list ascii) * list ascii :=
  match s with
  | [] => ([], cur)
  | c :: s' =>
      if (c =? NL)%char then let '(ls, r) := split_from [] s' in (cur :: ls, r)
      else split_from (cur ++ [c]) s'
  end.

(** Splitting on the newline character the way a library [split] does:
    [n] newlines give [n + 1] segments, the last one empty when the input
    ends in a newline. *)
Fixpoint split_on_nl (s : list ascii) : list (list ascii) :=
  match s with
  | [] => [[]]
  | c :: s' =>
      if (c =? NL)%char then [] :: split_on_nl s'
      else match split_on_nl s' with
           | l :: ls => (c :: l) :: ls
           | [] => [[c]]
           end
  end.

(** All segments but the last. *)
Definition without_last (segs : list (list ascii)) : list (list ascii) :=
  take (length segs - 1) segs.

(** The segments, the last one dropped when it is empty. *)
Definition without_trailing_empty (segs : list (list ascii)) : list (list ascii) :=
  match last segs with
  | Some [] => without_last segs
  | _ => segs
  end.

(** A byte-at-a-time assembler with the overflow policy of the program: a
    newline finishes the line, and a line that reaches
    [LINE_BUFFER_SIZE - 1] bytes is logged and handed over as it is. *)
Fixpoint reference_assembler (nm cur s : list ascii) : list event * list ascii :=
  match s with
  | [] => ([], cur)
  | c :: s' =>
      if (c =? NL)%char then
        let '(evs, r) := reference_assembler nm [] s' in (HandleLine nm cur :: evs, r)
      else if bool_decide (LINE_BUFFER_SIZE - 1 ≤ length (cur ++ [c])) then
        let '(evs, r) := reference_assembler nm [] s' in
        (LogLongLine nm :: HandleLine nm (cur ++ [c]) :: evs, r)
      else reference_assembler nm (cur ++ [c]) s'
  end.

(** The events of a forced split of [block]. *)
Definition forced_split (nm block : list ascii) : list event :=
  [LogLongLine nm; HandleLine nm block].

Definition nul_free (s : list ascii) : Prop := NUL ∉ s.
Definition nl_free (s : list ascii) : Prop := NL ∉ s.

(** The buffer is its full size and the cursor leaves room for one byte
    and the terminator. *)
Definition buf_ok (w : file_watch) : Prop :=
  length (line_buffer_data w) = LINE_BUFFER_SIZE
  ∧ line_buffer_pos w < LINE_BUFFER_SIZE - 1.

(** The assembler holds the unfinished line [r]. *)
Definition holds_residual (w : file_watch) (r : list ascii) : Prop :=
  buf_ok w
  ∧ line_buffer_pos w = length r
  ∧ take (length r) (line_buffer_data w) = r.

(** ** Worlds and runs used in the examples *)

(** A file system that holds the directory [/tmp] and nothing else, no
    descriptor or watch in use yet, and room for [limit] watches. *)
Definition tmp_world (limit : nat) : world :=
  World {[ chars "/tmp" := 0 ]} {[ 0 := Directory ]} ∅ 4 ∅ 1 limit.

Definition log_txt : list ascii := chars "/tmp/log.txt".

(** The program started on [/tmp/log.txt] in a given world. *)
Definition started (k : world) : state := (init_files (State [] k []) [log_txt]).1.

(** The watch descriptor of record [i], as the kernel reports it in an
    event. *)
Definition wd_of (st : state) (i : nat) : Z := default (-1)%Z (watch_desc <$> registry st !! i).

(** Another process changes the file system while the program waits. *)
Definition meanwhile (st : state) (f : world → world) : state := set_kernel st (f (kernel st)).

(** The events the program recorded after [st0]. *)
Definition new_events (st0 st : state) : list event := drop (length (trace st0)) (trace st).

(** The bytes a sequence of assembler events stands for: a line handed
    over at a newline stands for itself and the newline, a line split off
    by force for itself only. *)
Fixpoint rebuild (evs : list event) : list ascii :=
  match evs with
  | [] => []
  | LogLongLine _ :: HandleLine _ l :: evs' => l ++ rebuild evs'
  | HandleLine _ l :: evs' => l ++ NL :: rebuild evs'
  | _ :: evs' => rebuild evs'
  end.

(** ** Predicates on records used in the invariants *)

(** The kernel objects the program holds are the same in [k'] as in [k]:
    same watches, same open descriptors (their positions aside), same
    files. *)
Definition same_subscriptions (k k' : world) : Prop :=
  inotify_watches k' = inotify_watches k
  ∧ dom (descriptors k') = dom (descriptors k)
  ∧ paths k' = paths k
  ∧ inodes k' = inodes k.


(** A file record that has a watch has an open descriptor. *)
Definition watch_has_descriptor (w : file_watch) : Prop :=
  kind_is_file w = true → (0 ≤ watch_desc w)%Z → (0 ≤ fd w)%Z.

(** What identifies a record for the whole run: its name and its kind. *)
Definition identity (w : file_watch) : list ascii * bool := (name w, kind_is_file w).

(** No directory record has the name of a record linked before it (on the
    names and kinds of the records of a registry, in order). *)
Definition dirs_fresh (ids : list (list ascii * bool)) : Prop :=
  ∀ p q nm x, ids !! p = Some (nm, false) → q < p → ids !! q = Some x → x.1 ≠ nm.

(** * Properties *)

Arguments LINE_BUFFER_SIZE : simpl never.

Lemma LINE_BUFFER_SIZE_val : LINE_BUFFER_SIZE = 4096.
Proof. reflexivity. Qed.

(** ** C strings *)

Lemma NL_neq_NUL : NL ≠ NUL.
Proof. unfold NL, NUL. discriminate. Qed.

Lemma cstring_app_nul l t : nul_free l → cstring (l ++ NUL :: t) = l.
Proof.
  unfold nul_free. induction l as [|c l IH]; intros Hl; simpl.
  - reflexivity.
  - apply not_elem_of_cons in Hl as [Hc Hl].
    destruct (Ascii.eqb_spec c NUL) as [->|_]; [done|]. by rewrite IH.
Qed.

Lemma strchr_rel_found l t :
  nl_free l → nul_free l → strchr_rel (l ++ NL :: t) NL = Some (length l).
Proof.
  unfold nl_free, nul_free. induction l as [|c l IH]; intros Hnl Hnul; simpl.
  - reflexivity.
  - apply not_elem_of_cons in Hnl as [Hc1 Hnl].
    apply not_elem_of_cons in Hnul as [Hc2 Hnul].
    destruct (Ascii.eqb_spec c NL) as [->|_]; [done|].
    destruct (Ascii.eqb_spec c NUL) as [->|_]; [done|].
    by rewrite IH.
Qed.

Lemma strchr_rel_none l t :
  nl_free l → strchr_rel (l ++ NUL :: t) NL = None.
Proof.
  unfold nl_free. induction l as [|c l IH]; intros Hnl; simpl.
  - reflexivity.
  - apply not_elem_of_cons in Hnl as [Hc1 Hnl].
    destruct (Ascii.eqb_spec c NL) as [->|_]; [done|].
    destruct (Ascii.eqb_spec c NUL) as [->|_]; [done|].
    by rewrite IH.
Qed.

(** Where [strchr] stops: on the character, with no NUL before it. *)
Lemma strchr_rel_Some s k :
  strchr_rel s NL = Some k →
  s !! k = Some NL ∧ ∀ j, j < k → s !! j ≠ Some NUL.
Proof.
  revert k. induction s as [|c s IH]; intros k; simpl; [done|].
  destruct (Ascii.eqb_spec c NL) as [->|Hc1].
  - intros [= <-]. split; [done|]. intros j Hj. lia.
  - destruct (Ascii.eqb_spec c NUL) as [->|Hc2]; [done|].
    destruct (strchr_rel s NL) as [k'|] eqn:Hk; simpl; [|done].
    intros [= <-]. destruct (IH k' eq_refl) as [H1 H2]. split; [done|].
    intros [|j] Hj; simpl; [congruence|]. apply H2. lia.
Qed.

Lemma strchr_Some data start e :
  strchr data start NL = Some e →
  start ≤ e ∧ data !! e = Some NL ∧ ∀ j, start ≤ j < e → data !! j ≠ Some NUL.
Proof.
  unfold strchr. destruct (strchr_rel (drop start data) NL) as [k|] eqn:Hk; simpl; [|done].
  intros [= <-]. apply strchr_rel_Some in Hk as [H1 H2].
  rewrite lookup_drop in H1. split; [lia|]. split; [done|].
  intros j Hj. specialize (H2 (j - start)). rewrite lookup_drop in H2.
  replace (start + (j - start)) with j in H2 by lia. apply H2. lia.
Qed.

(** ** Splitting *)

Lemma split_from_nl_free cur s : nl_free s → split_from cur s = ([], cur ++ s).
Proof.
  unfold nl_free. revert cur. induction s as [|c s IH]; intros cur Hs; simpl.
  - by rewrite app_nil_r.
  - apply not_elem_of_cons in Hs as [Hc Hs].
    destruct (Ascii.eqb_spec c NL) as [->|_]; [done|].
    rewrite IH by done. by rewrite <- app_assoc.
Qed.

Lemma split_from_app_nl cur l t :
  nl_free l →
  split_from cur (l ++ NL :: t) =
  (let '(ls, r) := split_from [] t in ((cur ++ l) :: ls, r)).
Proof.
  unfold nl_free. revert cur. induction l as [|c l IH]; intros cur Hl; simpl.
  - by rewrite app_nil_r.
  - apply not_elem_of_cons in Hl as [Hc Hl].
    destruct (Ascii.eqb_spec c NL) as [->|_]; [done|].
    rewrite IH by done. by rewrite <- app_assoc.
Qed.

Lemma split_from_cur cur s :
  nl_free cur → split_from cur s = split_from [] (cur ++ s).
Proof.
  intros Hcur. destruct (decide (NL ∈ s)) as [Hin|Hnin].
  - apply list_elem_of_split_l in Hin as (l & t & -> & Hl).
    rewrite app_assoc. rewrite !split_from_app_nl; [done| |done].
    unfold nl_free in *. rewrite elem_of_app. tauto.
  - rewrite !split_from_nl_free; [done| |done].
    unfold nl_free in *. rewrite elem_of_app. tauto.
Qed.

Lemma split_from_app cur a b :
  split_from cur (a ++ b) =
  (let '(l1, r1) := split_from cur a in
   let '(l2, r2) := split_from r1 b in (l1 ++ l2, r2)).
Proof.
  revert cur. induction a as [|c a IH]; intros cur; simpl.
  - by destruct (split_from cur b).
  - destruct (Ascii.eqb_spec c NL) as [->|_].
    + rewrite IH. destruct (split_from [] a) as [l1 r1].
      by destruct (split_from r1 b).
    + by rewrite IH.
Qed.

(** The bytes are all accounted for: each finished line stands for itself
    and its newline. *)
Lemma split_from_length cur s ls r :
  split_from cur s = (ls, r) →
  length cur + length s = sum_list ((λ l, S (length l)) <$> ls) + length r.
Proof.
  revert cur ls r. induction s as [|c s IH]; intros cur ls r; simpl.
  - intros [= <- <-]. simpl. lia.
  - destruct (Ascii.eqb_spec c NL) as [->|_].
    + destruct (split_from [] s) as [ls' r'] eqn:Hs. intros [= <- <-].
      specialize (IH _ _ _ Hs). rewrite fmap_cons. simpl in *. lia.
    + intros Hs. specialize (IH _ _ _ Hs). rewrite length_app in IH. simpl in *. lia.
Qed.

Lemma split_from_residual_free cur s ls r :
  split_from cur s = (ls, r) →
  nl_free cur → nl_free r.
Proof.
  revert cur ls r. induction s as [|c s IH]; intros cur ls r; simpl.
  - by intros [= <- <-].
  - destruct (Ascii.eqb_spec c NL) as [->|Hc].
    + destruct (split_from [] s) as [ls' r'] eqn:Hs. intros [= <- <-] _.
      apply (IH _ _ _ Hs). unfold nl_free. apply not_elem_of_nil.
    + intros Hs Hcur. apply (IH _ _ _ Hs). unfold nl_free in *.
      rewrite elem_of_app, list_elem_of_singleton. intros [?|?]; [done|]. by apply Hc.
Qed.

Lemma split_from_residual_nul cur s ls r :
  split_from cur s = (ls, r) →
  nul_free cur → nul_free s → nul_free r.
Proof.
  revert cur ls r. induction s as [|c s IH]; intros cur ls r; simpl.
  - by intros [= <- <-].
  - unfold nul_free at 2. intros Hs Hcur [Hc Hnul]%not_elem_of_cons.
    destruct (Ascii.eqb_spec c NL) as [->|_].
    + destruct (split_from [] s) as [ls' r'] eqn:Hs'. injection Hs as <- <-.
      apply (IH _ _ _ Hs'); [|done]. unfold nul_free. apply not_elem_of_nil.
    + apply (IH _ _ _ Hs); [|done]. unfold nul_free in *.
      rewrite elem_of_app, list_elem_of_singleton. intros [?|?]; [done|]. by apply Hc.
Qed.

(** ** The extraction loop on NUL-free content *)

Lemma strchr_app_found pre l t :
  nl_free l → nul_free l →
  strchr (pre ++ l ++ NL :: t) (length pre) NL = Some (length pre + length l).
Proof.
  intros Hnl Hnul. unfold strchr. rewrite drop_app_length.
  by rewrite strchr_rel_found.
Qed.

Lemma strchr_app_none pre l t :
  nl_free l → strchr (pre ++ l ++ NUL :: t) (length pre) NL = None.
Proof.
  intros Hnl. unfold strchr. rewrite drop_app_length.
  by rewrite strchr_rel_none.
Qed.

Lemma insert_middle (pre l : list ascii) (x y : ascii) (t : list ascii) :
  <[length pre + length l := y]> (pre ++ l ++ x :: t) = pre ++ l ++ y :: t.
Proof.
  rewrite insert_app_r. f_equal.
  replace (length l) with (length l + 0) at 1 by lia.
  by rewrite insert_app_r.
Qed.

(** On a buffer [pre ++ body ++ NUL :: rest] scanned from the end of
    [pre], the loop hands over the finished lines of [body] and stops at
    its unfinished rest. *)
Lemma handle_lines_loop_spec fuel nm pre body rest ls r :
  nul_free body → length body < fuel →
  split_from [] body = (ls, r) →
  ∃ pre', length pre' + length r = length pre + length body
    ∧ handle_lines_loop fuel nm (pre ++ body ++ NUL :: rest) (length pre)
      = (pre' ++ r ++ NUL :: rest, length pre', HandleLine nm <$> ls).
Proof.
  revert pre body ls r. induction fuel as [|fuel IH]; intros pre body ls r Hnul Hfuel Hsplit.
  { lia. }
  destruct (decide (NL ∈ body)) as [Hin|Hnin].
  - apply list_elem_of_split_l in Hin as (l & t & -> & Hl).
    unfold nul_free in Hnul. apply not_elem_of_app in Hnul as [Hnul_l Hnul_t].
    apply not_elem_of_cons in Hnul_t as [_ Hnul_t].
    rewrite split_from_app_nl in Hsplit by done.
    destruct (split_from [] t) as [ls' r'] eqn:Ht. injection Hsplit as <- <-.
    rewrite length_app in Hfuel. simpl in Hfuel.
    destruct (IH (pre ++ l ++ [NUL]) t ls' r' Hnul_t ltac:(lia) Ht) as (pre' & Hlen & Hrun).
    exists pre'. split.
    { rewrite !length_app in *. simpl in *. lia. }
    simpl. rewrite <- (app_assoc l). simpl.
    rewrite strchr_app_found by done. rewrite insert_middle.
    unfold cstring_at. rewrite drop_app_length, cstring_app_nul by done.
    replace (S (length pre + length l)) with (length (pre ++ l ++ [NUL]))
      by (rewrite !length_app; simpl; lia).
    replace (pre ++ l ++ NUL :: t ++ NUL :: rest)
      with ((pre ++ l ++ [NUL]) ++ t ++ NUL :: rest)
      by (rewrite <- !app_assoc; reflexivity).
    rewrite Hrun. reflexivity.
  - rewrite split_from_nl_free in Hsplit by done. injection Hsplit as <- <-.
    exists pre. split; [done|].
    simpl. by rewrite strchr_app_none.
Qed.

(** ** Bounds that hold on any content *)

Lemma handle_lines_loop_bounds fuel nm data start p :
  data !! p = Some NUL → start ≤ p →
  let '(data', start', _) := handle_lines_loop fuel nm data start in
  length data' = length data ∧ start ≤ start' ≤ p ∧ data' !! p = Some NUL.
Proof.
  revert data start. induction fuel as [|fuel IH]; intros data start Hp Hstart; simpl.
  { done. }
  destruct (strchr data start NL) as [e|] eqn:He; [|done].
  apply strchr_Some in He as (He1 & He2 & He3).
  assert (e < p) as Hlt.
  { destruct (decide (e < p)); [done|]. exfalso.
    destruct (decide (e = p)) as [->|].
    { rewrite Hp in He2. injection He2 as He2. by apply NL_neq_NUL. }
    apply (He3 p); [lia|done]. }
  assert (e < length data) by (by eapply lookup_lt_Some).
  specialize (IH (<[e := NUL]> data) (S e)).
  destruct (handle_lines_loop fuel nm (<[e:=NUL]> data) (S e)) as [[data' start'] evs].
  rewrite length_insert in IH.
  destruct IH as (? & ? & ?); [|lia|].
  { rewrite list_lookup_insert_ne by lia. done. }
  repeat split; [done|lia|lia|done].
Qed.

Lemma length_store_bytes data pos bs :
  pos + length bs ≤ length data →
  length (store_bytes data pos bs) = length data.
Proof.
  intros H. unfold store_bytes. rewrite !length_app, length_take, length_drop. lia.
Qed.

Lemma length_memmove_front data offset n :
  offset + n ≤ length data →
  length (memmove_front data offset n) = length data.
Proof.
  intros H. unfold memmove_front.
  rewrite length_app, length_take, !length_drop. lia.
Qed.

(** What [do_read] leaves behind when it accepts bytes: they lie in the
    array from the old cursor on, the cursor has moved past them, and a NUL
    stands at the cursor. *)
Lemma do_read_accepts w bs :
  length (line_buffer_data w) = LINE_BUFFER_SIZE →
  line_buffer_pos w ≤ LINE_BUFFER_SIZE - 1 →
  bs ≠ [] → length bs ≤ read_count w →
  ∃ w1, do_read w (ReadData bs) = (w1, true, [])
    ∧ name w1 = name w ∧ fd w1 = fd w ∧ watch_desc w1 = watch_desc w
    ∧ length (line_buffer_data w1) = LINE_BUFFER_SIZE
    ∧ line_buffer_pos w1 = line_buffer_pos w + length bs
    ∧ line_buffer_pos w1 ≤ LINE_BUFFER_SIZE - 1
    ∧ line_buffer_data w1
      = take (line_buffer_pos w) (line_buffer_data w) ++ bs ++ NUL ::
        drop (S (line_buffer_pos w + length bs)) (line_buffer_data w).
Proof.
  intros Hlen Hpos Hne Hfit. unfold read_count in Hfit.
  pose proof LINE_BUFFER_SIZE_val as HC.
  destruct bs as [|b bs]; [done|]. eexists. split; [reflexivity|].
  cbn [name fd watch_desc set_buffer line_buffer_data line_buffer_pos].
  set (bs' := b :: bs) in *. clearbody bs'.
  assert (length (store_bytes (line_buffer_data w) (line_buffer_pos w) bs')
          = LINE_BUFFER_SIZE) as Hst by (rewrite length_store_bytes; lia).
  repeat split; try done.
  - by rewrite length_insert.
  - lia.
  - unfold store_bytes.
    assert (length (take (line_buffer_pos w) (line_buffer_data w)) = line_buffer_pos w)
      as Htk by (rewrite length_take; lia).
    rewrite <- Htk at 1.
    rewrite (drop_S (line_buffer_data w) (default NUL (line_buffer_data w !! (line_buffer_pos w + length bs'))) (line_buffer_pos w + length bs')).
    + by rewrite insert_middle.
    + destruct (line_buffer_data w !! (line_buffer_pos w + length bs')) eqn:E; [done|].
      apply lookup_ge_None in E. lia.
Qed.

Lemma sum_list_succ_0 (ls : list (list ascii)) :
  sum_list ((λ l, S (length l)) <$> ls) = 0 → ls = [].
Proof. destruct ls; [done|]. rewrite fmap_cons. simpl. lia. Qed.

Lemma shift_residual_fields w data start :
  name (shift_residual w data start) = name w
  ∧ fd (shift_residual w data start) = fd w
  ∧ watch_desc (shift_residual w data start) = watch_desc w
  ∧ file_offset (shift_residual w data start) = file_offset w
  ∧ parent (shift_residual w data start) = parent w
  ∧ kind_is_file (shift_residual w data start) = kind_is_file w.
Proof. unfold shift_residual. by case_bool_decide. Qed.

Lemma split_long_line_fields w :
  name (split_long_line w).1 = name w
  ∧ fd (split_long_line w).1 = fd w
  ∧ watch_desc (split_long_line w).1 = watch_desc w
  ∧ file_offset (split_long_line w).1 = file_offset w
  ∧ parent (split_long_line w).1 = parent w
  ∧ kind_is_file (split_long_line w).1 = kind_is_file w.
Proof. unfold split_long_line. by case_bool_decide. Qed.

Lemma shift_residual_bounds w data start :
  length data = LINE_BUFFER_SIZE →
  line_buffer_pos w ≤ LINE_BUFFER_SIZE - 1 →
  start ≤ line_buffer_pos w →
  length (line_buffer_data (shift_residual w data start)) = LINE_BUFFER_SIZE
  ∧ line_buffer_pos (shift_residual w data start) ≤ LINE_BUFFER_SIZE - 1.
Proof.
  intros Hlen Hpos Hstart. pose proof LINE_BUFFER_SIZE_val as HC.
  unfold shift_residual. case_bool_decide; simpl; [|done].
  split; [|lia]. case_bool_decide; [|done].
  rewrite length_memmove_front; lia.
Qed.

Lemma split_long_line_bounds w :
  length (line_buffer_data w) = LINE_BUFFER_SIZE →
  buf_ok (split_long_line w).1.
Proof.
  intros Hlen. pose proof LINE_BUFFER_SIZE_val as HC.
  unfold split_long_line, buf_ok. case_bool_decide; simpl; split; try done; lia.
Qed.

(** [handle_lines] on a terminated buffer of any content: the buffer keeps
    its size, the cursor ends below [LINE_BUFFER_SIZE - 1], and the offset
    subtracted from the cursor does not exceed it. *)
Lemma handle_lines_bounds w :
  length (line_buffer_data w) = LINE_BUFFER_SIZE →
  line_buffer_pos w ≤ LINE_BUFFER_SIZE - 1 →
  line_buffer_data w !! line_buffer_pos w = Some NUL →
  (handle_lines_loop LINE_BUFFER_SIZE (name w) (line_buffer_data w) 0).1.2
    ≤ line_buffer_pos w
  ∧ buf_ok (handle_lines w).1
  ∧ name (handle_lines w).1 = name w
  ∧ fd (handle_lines w).1 = fd w
  ∧ watch_desc (handle_lines w).1 = watch_desc w
  ∧ file_offset (handle_lines w).1 = file_offset w
  ∧ parent (handle_lines w).1 = parent w
  ∧ kind_is_file (handle_lines w).1 = kind_is_file w.
Proof.
  intros Hlen Hpos Hnul.
  pose proof (handle_lines_loop_bounds LINE_BUFFER_SIZE (name w) _ 0 _ Hnul ltac:(lia)) as Hb.
  unfold handle_lines.
  destruct (handle_lines_loop LINE_BUFFER_SIZE (name w) (line_buffer_data w) 0)
    as [[data start] evs]. destruct Hb as (Hlen' & Hstart & _).
  cbn [fst snd].
  destruct (shift_residual_bounds w data start) as [Hl1 Hp1]; [congruence|done|lia|].
  pose proof (split_long_line_bounds _ Hl1) as Hok.
  pose proof (split_long_line_fields (shift_residual w data start)) as Hf2.
  pose proof (shift_residual_fields w data start) as Hf1.
  destruct (split_long_line (shift_residual w data start)) as [w2 evs2].
  cbn [fst] in *. split; [lia|]. split; [done|].
  destruct Hf1 as (? & ? & ? & ? & ? & ?). destruct Hf2 as (? & ? & ? & ? & ? & ?).
  repeat split; congruence.
Qed.

(** [handle_lines] on NUL-free content [body]: the finished lines of
    [body] are handed over in order; its unfinished rest [r] becomes the
    residual, unless it fills the buffer, in which case it is split off by
    force and the buffer is emptied. *)
Lemma handle_lines_spec w body rest ls r :
  line_buffer_data w = body ++ NUL :: rest →
  line_buffer_pos w = length body →
  length (line_buffer_data w) = LINE_BUFFER_SIZE →
  nul_free body →
  split_from [] body = (ls, r) →
  ∃ w' evs, handle_lines w = (w', evs)
    ∧ name w' = name w
    ∧ if bool_decide (LINE_BUFFER_SIZE - 1 ≤ length r)
      then ls = [] ∧ evs = forced_split (name w) r ∧ holds_residual w' []
      else evs = HandleLine (name w) <$> ls ∧ holds_residual w' r.
Proof.
  intros Hdata Hpos Hlen Hnul Hsplit. pose proof LINE_BUFFER_SIZE_val as HC.
  assert (length body < LINE_BUFFER_SIZE) as Hbody.
  { rewrite Hdata, length_app in Hlen. simpl in Hlen. lia. }
  destruct (handle_lines_loop_spec LINE_BUFFER_SIZE (name w) [] body rest ls r
              Hnul Hbody Hsplit) as (pre' & Hlen' & Hrun).
  cbn [app length] in Hrun, Hlen'.
  assert (nul_free r) as Hr.
  { eapply split_from_residual_nul; [done| |done]. unfold nul_free. apply not_elem_of_nil. }
  pose proof (split_from_length _ _ _ _ Hsplit) as Hsum. simpl in Hsum.
  unfold handle_lines. rewrite Hdata, Hrun. clear Hrun.
  assert (length (pre' ++ r ++ NUL :: rest) = LINE_BUFFER_SIZE) as Hlen1.
  { rewrite Hdata in Hlen. rewrite !length_app in *. simpl in *. lia. }
  assert (∃ w1, shift_residual w (pre' ++ r ++ NUL :: rest) (length pre') = w1
                ∧ name w1 = name w
                ∧ line_buffer_pos w1 = length r
                ∧ length (line_buffer_data w1) = LINE_BUFFER_SIZE
                ∧ (∃ t, line_buffer_data w1 = r ++ t)
                ∧ (pre' = [] → line_buffer_data w1 = r ++ NUL :: rest ∧ ls = []))
    as (w1 & -> & Hnm & Hp1 & Hl1 & (t & Hd1) & Hnil).
  { eexists. split; [reflexivity|]. unfold shift_residual. rewrite Hpos.
    case_bool_decide as Hs; cbn [set_buffer line_buffer_pos line_buffer_data name].
    - split; [done|]. split; [lia|]. case_bool_decide as Hmv.
      + replace (length body - length pre') with (length r) by lia.
        unfold memmove_front. rewrite drop_app_length, take_app_length.
        split; [|split; [eauto|]].
        * rewrite length_app, length_drop. lia.
        * intros ->. done.
      + assert (r = []) as -> by (apply nil_length_inv; lia).
        split; [done|]. split; [by eexists|]. intros ->. done.
    - assert (pre' = []) as -> by (apply nil_length_inv; lia).
      simpl in *. split; [done|]. split; [lia|]. split; [done|]. split; [by eexists|].
      intros _. split; [done|]. apply sum_list_succ_0. lia. }
  unfold split_long_line. rewrite Hp1.
  case_bool_decide as Hfull.
  - assert (pre' = []) as -> by (apply nil_length_inv; lia).
    destruct (Hnil eq_refl) as [Hd1' ->].
    do 2 eexists. split; [reflexivity|]. simpl. split; [done|].
    split; [done|]. split.
    + unfold forced_split, cstring_at. rewrite Hnm, Hd1', drop_0.
      by rewrite cstring_app_nul.
    + unfold holds_residual, buf_ok. simpl. repeat split; try lia; done.
  - do 2 eexists. split; [reflexivity|]. split; [done|].
    rewrite app_nil_r. split; [done|].
    unfold holds_residual, buf_ok. rewrite Hd1, take_app_length in *.
    repeat split; try lia; try done.
Qed.

(** ** One round of reading, and whole streams *)

(** One round on NUL-free bytes [c] that the assembler accepts in full. *)
Lemma feed_spec w r c ls r' :
  holds_residual w r → nul_free r → nl_free r →
  nul_free c → c ≠ [] → length c ≤ read_count w →
  split_from r c = (ls, r') →
  ∃ w' evs, feed w (ReadData c) = (w', true, evs)
    ∧ name w' = name w
    ∧ if bool_decide (LINE_BUFFER_SIZE - 1 ≤ length r')
      then ls = [] ∧ evs = forced_split (name w) r' ∧ holds_residual w' []
      else evs = HandleLine (name w) <$> ls ∧ holds_residual w' r'.
Proof.
  intros ([Hlen Hlt] & Hpos & Htake) Hr0 Hr1 Hc Hne Hfit Hsplit.
  destruct (do_read_accepts w c) as (w1 & Hdo & Hnm & _ & _ & Hlen1 & Hpos1 & _ & Hdata1);
    [done|lia|done|done|].
  rewrite Hpos, Htake in Hdata1. rewrite app_assoc in Hdata1.
  rewrite split_from_cur in Hsplit by done.
  destruct (handle_lines_spec w1 (r ++ c) _ ls r' Hdata1) as (w' & evs & Hhl & Hnm' & Hres).
  { rewrite Hpos1, Hpos, length_app. done. }
  { done. }
  { unfold nul_free in *. rewrite elem_of_app. tauto. }
  { done. }
  exists w', evs. unfold feed. rewrite Hdo, Hhl. simpl.
  rewrite Hnm in *. split; [done|]. split; [done|]. done.
Qed.

(** The reference assembler may be fed in pieces. *)
Lemma reference_assembler_app nm cur a b :
  reference_assembler nm cur (a ++ b) =
  (let '(e1, r1) := reference_assembler nm cur a in
   let '(e2, r2) := reference_assembler nm r1 b in (e1 ++ e2, r2)).
Proof.
  revert cur. induction a as [|c a IH]; intros cur; simpl.
  - by destruct (reference_assembler nm cur b).
  - destruct (Ascii.eqb_spec c NL) as [->|_].
    + rewrite IH. destruct (reference_assembler nm [] a) as [e1 r1].
      by destruct (reference_assembler nm r1 b).
    + case_bool_decide.
      * rewrite IH. destruct (reference_assembler nm [] a) as [e1 r1].
        by destruct (reference_assembler nm r1 b).
      * by rewrite IH.
Qed.

(** On a chunk that fits the buffer, the reference assembler does what one
    round of the program does. *)
Lemma reference_assembler_chunk nm r c ls r' :
  length r < LINE_BUFFER_SIZE - 1 →
  length r + length c ≤ LINE_BUFFER_SIZE - 1 →
  split_from r c = (ls, r') →
  reference_assembler nm r c =
  if bool_decide (LINE_BUFFER_SIZE - 1 ≤ length r')
  then (forced_split nm r', [])
  else (HandleLine nm <$> ls, r').
Proof.
  pose proof LINE_BUFFER_SIZE_val as HC.
  revert r ls r'. induction c as [|x c IH]; intros r ls r' Hr Hfit; simpl.
  - intros [= <- <-]. by rewrite bool_decide_eq_false_2 by lia.
  - simpl in Hfit. destruct (Ascii.eqb_spec x NL) as [->|_].
    + destruct (split_from [] c) as [ls' r''] eqn:Hs. intros [= <- <-].
      pose proof (split_from_length _ _ _ _ Hs) as Hsum. simpl in Hsum.
      rewrite (IH [] ls' r''); [|cbn [length]; lia|cbn [length]; lia|done].
      rewrite !bool_decide_eq_false_2 by lia. by rewrite fmap_cons.
    + intros Hs. case_bool_decide as Hfull.
      * rewrite length_app in Hfull. simpl in Hfull.
        assert (c = []) as -> by (apply nil_length_inv; lia).
        simpl in Hs. injection Hs as <- <-. simpl.
        rewrite bool_decide_eq_true_2 by (rewrite length_app; simpl; lia). done.
      * rewrite length_app in Hfull. simpl in Hfull.
        apply IH; [rewrite length_app; simpl; lia|rewrite length_app; simpl; lia|done].
Qed.

Lemma drop_length_take {A} (k : nat) (s : list A) :
  drop (length (take k s)) s = drop k s.
Proof.
  rewrite length_take. destruct (decide (k ≤ length s)).
  - by rewrite Nat.min_l.
  - rewrite Nat.min_r by lia. by rewrite !drop_ge by lia.
Qed.

(** Chunk independence: however the kernel cuts a NUL-free stream into
    reads, the program hands over what the byte-at-a-time reference
    assembler does on the bytes consumed, and ends holding the same
    residual. *)
Theorem read_stream_reference ns : ∀ s w r,
  holds_residual w r → nul_free r → nl_free r → nul_free s →
  ∃ w' evs rest consumed r',
    read_stream w s ns = (w', evs, rest)
    ∧ s = consumed ++ rest
    ∧ reference_assembler (name w) r consumed = (evs, r')
    ∧ holds_residual w' r' ∧ nul_free r' ∧ nl_free r' ∧ name w' = name w.
Proof.
  pose proof LINE_BUFFER_SIZE_val as HC.
  induction ns as [|n ns IH]; intros s w r Hw Hr0 Hr1 Hs.
  { exists w, [], s, [], r. simpl. done. }
  cbn [read_stream].
  set (c := take (n `min` read_count w) s).
  assert (length c ≤ read_count w) as Hfit by (subst c; rewrite length_take; lia).
  assert (s = c ++ drop (length c) s) as Hcut.
  { subst c. by rewrite drop_length_take, take_drop. }
  assert (nul_free c ∧ nul_free (drop (length c) s)) as [Hc Hd].
  { rewrite Hcut in Hs. unfold nul_free in *. by apply not_elem_of_app in Hs. }
  destruct (decide (c = [])) as [Hnil|Hne].
  - rewrite Hnil in *. simpl. rewrite drop_0.
    destruct (IH s w r Hw Hr0 Hr1 Hs) as (w' & evs & rest & consumed & r' & Hrun & ?).
    rewrite Hrun. exists w', evs, rest, consumed, r'. done.
  - destruct (split_from r c) as [ls r1] eqn:Hsplit.
    destruct (feed_spec w r c ls r1 Hw Hr0 Hr1 Hc Hne Hfit Hsplit)
      as (w1 & evs1 & Hfeed & Hnm1 & Hcase).
    assert (length r < LINE_BUFFER_SIZE - 1 ∧ length r + length c ≤ LINE_BUFFER_SIZE - 1)
      as [Hr2 Hrc].
    { destruct Hw as ([Hlen Hlt] & Hpos & Htake). unfold read_count in Hfit. lia. }
    pose proof (reference_assembler_chunk (name w) r c ls r1 Hr2 Hrc Hsplit) as Href.
    rewrite Hfeed.
    assert (∃ r1', holds_residual w1 r1' ∧ nul_free r1' ∧ nl_free r1'
                   ∧ reference_assembler (name w) r c = (evs1, r1'))
      as (r1' & Hw1 & Hn0 & Hn1 & Href').
    { destruct (bool_decide (LINE_BUFFER_SIZE - 1 ≤ length r1)).
      - destruct Hcase as (-> & -> & Hw1). exists [].
        split; [exact Hw1|]. split; [unfold nul_free; apply not_elem_of_nil|].
        split; [unfold nl_free; apply not_elem_of_nil|exact Href].
      - destruct Hcase as (-> & Hw1). exists r1.
        split; [exact Hw1|]. split; [eapply split_from_residual_nul; eauto|].
        split; [eapply split_from_residual_free; eauto|exact Href]. }
    destruct (IH (drop (length c) s) w1 r1' Hw1 Hn0 Hn1 Hd)
      as (w' & evs & rest & consumed & r' & Hrun & Hs' & Hra & ? & ? & ? & ?).
    rewrite Hrun. exists w', (evs1 ++ evs), rest, (c ++ consumed), r'.
    split; [done|]. split; [by rewrite <- app_assoc, <- Hs'|].
    rewrite reference_assembler_app, Href', <- Hnm1, Hra.
    do 4 (split; [done|]). congruence.
Qed.

Lemma do_read_fields w ret :
  name (do_read w ret).1.1 = name w
  ∧ fd (do_read w ret).1.1 = fd w
  ∧ watch_desc (do_read w ret).1.1 = watch_desc w
  ∧ file_offset (do_read w ret).1.1 = file_offset w
  ∧ parent (do_read w ret).1.1 = parent w
  ∧ kind_is_file (do_read w ret).1.1 = kind_is_file w.
Proof. destruct ret as [|[|b bs]]; done. Qed.

Lemma do_read_terminated w bs :
  length (line_buffer_data w) = LINE_BUFFER_SIZE →
  line_buffer_pos w ≤ LINE_BUFFER_SIZE - 1 →
  bs ≠ [] → length bs ≤ read_count w →
  line_buffer_data (do_read w (ReadData bs)).1.1
    !! line_buffer_pos (do_read w (ReadData bs)).1.1 = Some NUL.
Proof.
  intros Hlen Hpos Hne Hfit. unfold read_count in Hfit.
  pose proof LINE_BUFFER_SIZE_val as HC.
  destruct bs as [|b bs]; [done|]. cbn [do_read fst set_buffer line_buffer_data line_buffer_pos].
  apply list_lookup_insert_eq. rewrite length_store_bytes; lia.
Qed.

(** One round on any read result that respects the [count] it was given:
    the buffer stays well formed and nothing but the buffer changes. *)
Lemma feed_bounds w ret :
  buf_ok w →
  (∀ bs, ret = ReadData bs → length bs ≤ read_count w) →
  buf_ok (feed w ret).1.1
  ∧ name (feed w ret).1.1 = name w
  ∧ fd (feed w ret).1.1 = fd w
  ∧ watch_desc (feed w ret).1.1 = watch_desc w
  ∧ file_offset (feed w ret).1.1 = file_offset w
  ∧ parent (feed w ret).1.1 = parent w
  ∧ kind_is_file (feed w ret).1.1 = kind_is_file w.
Proof.
  intros [Hlen Hpos] Hfit. unfold feed.
  destruct ret as [|bs]; [done|].
  destruct (decide (bs = [])) as [->|Hne]; [done|].
  specialize (Hfit bs eq_refl).
  destruct (do_read_accepts w bs) as (w1 & Hdo & _ & _ & _ & Hlen1 & _ & Hpos1 & _);
    [done|lia|done|done|].
  pose proof (do_read_terminated w bs Hlen ltac:(lia) Hne Hfit) as Hnul.
  pose proof (do_read_fields w (ReadData bs)) as Hf.
  rewrite Hdo in *. cbn [fst] in *.
  pose proof (handle_lines_bounds w1 Hlen1 Hpos1 Hnul) as (_ & Hok & Hf').
  destruct (handle_lines w1) as [w2 evs2]. cbn [fst] in *.
  split; [done|].
  destruct Hf as (? & ? & ? & ? & ? & ?). destruct Hf' as (? & ? & ? & ? & ? & ?).
  repeat split; congruence.
Qed.

Lemma read_stream_buf_ok ns : ∀ s w,
  buf_ok w → buf_ok (read_stream w s ns).1.1.
Proof.
  induction ns as [|n ns IH]; intros s w Hw; [done|].
  cbn [read_stream].
  pose proof (feed_bounds w (ReadData (take (n `min` read_count w) s)) Hw) as [Hok _].
  { intros bs [= <-]. rewrite length_take. lia. }
  destruct (feed w (ReadData (take (n `min` read_count w) s))) as [[w1 ok] evs1].
  specialize (IH (drop (length (take (n `min` read_count w) s)) s) w1 Hok).
  destruct (read_stream w1 _ ns) as [[w2 evs2] rest]. done.
Qed.

Lemma fresh_watch_buf_ok nm isf wd : buf_ok (fresh_watch nm isf wd).
Proof.
  pose proof LINE_BUFFER_SIZE_val. unfold buf_ok, fresh_watch.
  cbn [line_buffer_data line_buffer_pos]. rewrite length_replicate. lia.
Qed.

Lemma fresh_watch_holds nm isf wd : holds_residual (fresh_watch nm isf wd) [].
Proof. split; [apply fresh_watch_buf_ok|done]. Qed.

(** ** The reference assembler against [split] *)

Lemma split_on_nl_nl_free s : nl_free s → split_on_nl s = [s].
Proof.
  unfold nl_free. induction s as [|c s IH]; intros Hs; simpl; [done|].
  apply not_elem_of_cons in Hs as [Hc Hs].
  destruct (Ascii.eqb_spec c NL) as [->|_]; [done|]. by rewrite IH.
Qed.

Lemma split_on_nl_app_nl l t :
  nl_free l → split_on_nl (l ++ NL :: t) = l :: split_on_nl t.
Proof.
  unfold nl_free. induction l as [|c l IH]; intros Hl; simpl; [done|].
  apply not_elem_of_cons in Hl as [Hc Hl].
  destruct (Ascii.eqb_spec c NL) as [->|_]; [done|]. by rewrite IH.
Qed.

(** The segments of [split] are the finished lines followed by the
    unfinished rest. *)
Lemma split_on_nl_split_from s ls r :
  split_from [] s = (ls, r) → split_on_nl s = ls ++ [r].
Proof.
  revert ls r. induction s as [s IH] using (induction_ltof1 _ (@length _)).
  unfold ltof in IH. intros ls r Hs.
  destruct (decide (NL ∈ s)) as [Hin|Hnin].
  - apply list_elem_of_split_l in Hin as (l & t & -> & Hl).
    rewrite split_from_app_nl in Hs by done.
    destruct (split_from [] t) as [ls' r'] eqn:Ht. injection Hs as <- <-.
    rewrite split_on_nl_app_nl by done.
    rewrite (IH t) with (ls := ls') (r := r'); [done| |done].
    rewrite length_app. simpl. lia.
  - rewrite split_from_nl_free in Hs by done. injection Hs as <- <-.
    by rewrite split_on_nl_nl_free.
Qed.

Lemma without_last_snoc ls r : without_last (ls ++ [r]) = ls.
Proof.
  unfold without_last. rewrite length_app. simpl.
  replace (length ls + 1 - 1) with (length ls) by lia. apply take_app_length.
Qed.

Lemma handled_lines_app e1 e2 :
  handled_lines (e1 ++ e2) = handled_lines e1 ++ handled_lines e2.
Proof. unfold handled_lines. apply omap_app. Qed.

Lemma handled_lines_cons e evs :
  handled_lines (e :: evs) =
  match handled_line e with
  | Some l => l :: handled_lines evs
  | None => handled_lines evs
  end.
Proof. reflexivity. Qed.

Lemma handled_lines_fmap nm ls : handled_lines (HandleLine nm <$> ls) = ls.
Proof.
  induction ls as [|l ls IH]; [done|].
  rewrite fmap_cons, handled_lines_cons. cbn [handled_line]. by rewrite IH.
Qed.

Lemma forced_splits_app e1 e2 :
  forced_splits (e1 ++ e2) = forced_splits e1 + forced_splits e2.
Proof. unfold forced_splits. by rewrite filter_app, length_app. Qed.

Lemma forced_splits_log nm evs : forced_splits (LogLongLine nm :: evs) = S (forced_splits evs).
Proof. unfold forced_splits. by rewrite filter_cons_True. Qed.

Lemma forced_splits_handle nm l evs :
  forced_splits (HandleLine nm l :: evs) = forced_splits evs.
Proof. unfold forced_splits. by rewrite filter_cons_False. Qed.

(** Without a forced split the reference assembler only cuts at
    newlines. *)
Lemma reference_assembler_no_split nm s : ∀ cur evs r,
  reference_assembler nm cur s = (evs, r) →
  forced_splits evs = 0 →
  split_from cur s = (handled_lines evs, r).
Proof.
  induction s as [|c s IH]; intros cur evs r; simpl.
  - by intros [= <- <-].
  - destruct (Ascii.eqb_spec c NL) as [->|_].
    + destruct (reference_assembler nm [] s) as [evs' r'] eqn:Hs.
      intros [= <- <-]. rewrite forced_splits_handle. intros H0.
      by rewrite (IH _ _ _ Hs H0).
    + case_bool_decide.
      * destruct (reference_assembler nm [] s) as [evs' r'].
        intros [= <- <-]. by rewrite forced_splits_log.
      * apply IH.
Qed.

Lemma forced_splits_blocks nm blocks :
  forced_splits (flat_map (forced_split nm) blocks) = length blocks.
Proof.
  induction blocks as [|b blocks IH]; [done|]. simpl.
  rewrite forced_splits_log, forced_splits_handle. by rewrite IH.
Qed.

Lemma handled_lines_blocks nm blocks :
  handled_lines (flat_map (forced_split nm) blocks) = blocks.
Proof.
  induction blocks as [|b blocks IH]; [done|]. simpl.
  unfold handled_lines in *. simpl. by rewrite IH.
Qed.

Lemma length_concat_blocks (k : nat) (blocks : list (list ascii)) :
  Forall (λ b, length b = k) blocks → length (concat blocks) = k * length blocks.
Proof.
  induction 1 as [|b blocks Hb _ IH]; simpl; [lia|].
  rewrite length_app, IH, Hb. lia.
Qed.

(** A line without newline, followed by its newline: the reference
    assembler cuts it into full blocks, split off by force, and hands over
    what is left when the newline comes. *)
Lemma reference_assembler_line nm line : ∀ cur,
  nl_free line → length cur < LINE_BUFFER_SIZE - 1 →
  ∃ blocks tail,
    cur ++ line = concat blocks ++ tail
    ∧ Forall (λ b, length b = LINE_BUFFER_SIZE - 1) blocks
    ∧ length tail < LINE_BUFFER_SIZE - 1
    ∧ reference_assembler nm cur (line ++ [NL])
      = (flat_map (forced_split nm) blocks ++ [HandleLine nm tail], []).
Proof.
  pose proof LINE_BUFFER_SIZE_val as HC. unfold nl_free.
  induction line as [|x line IH]; intros cur Hline Hcur.
  - exists [], cur. simpl. rewrite app_nil_r. done.
  - apply not_elem_of_cons in Hline as [Hx Hline]. cbn [app reference_assembler].
    destruct (Ascii.eqb_spec x NL) as [->|_]; [done|].
    case_bool_decide as Hfull.
    + destruct (IH [] Hline ltac:(simpl; lia)) as (blocks & tail & Hcat & Hall & Htail & Hrun).
      rewrite Hrun. exists ((cur ++ [x]) :: blocks), tail.
      split; [|split; [|split]]; try done.
      * simpl in *. rewrite <- !app_assoc. simpl. by rewrite Hcat.
      * constructor; [|done]. rewrite length_app in *. simpl in *. lia.
    + destruct (IH (cur ++ [x]) Hline) as (blocks & tail & Hcat & Hall & Htail & Hrun).
      { rewrite length_app in *. simpl in *. lia. }
      rewrite Hrun. exists blocks, tail.
      split; [|done]. rewrite <- Hcat, <- app_assoc. done.
Qed.

(** * The claims about the line assembler *)

(** C1, as amended.  Line-split correctness: for every NUL-free byte
    sequence read through the assembler in chunks of arbitrary sizes, if
    no forced split occurs (the residual never reaches the overflow
    threshold), the lines handed to [handle_line], in order, are the
    segments obtained by splitting the bytes consumed at every newline,
    without the last segment; that last segment (empty exactly when the
    input ends in a newline) stays in the buffer as the residual. *)
Theorem C1_line_split_correct nm isf wd s ns w' evs rest :
  nul_free s →
  read_stream (fresh_watch nm isf wd) s ns = (w', evs, rest) →
  forced_splits evs = 0 →
  ∃ consumed,
    s = consumed ++ rest
    ∧ handled_lines evs = without_last (split_on_nl consumed)
    ∧ last (split_on_nl consumed)
      = Some (take (line_buffer_pos w') (line_buffer_data w')).
Proof.
  intros Hs Hrun Hno.
  destruct (read_stream_reference ns s (fresh_watch nm isf wd) [])
    as (w2 & evs2 & rest2 & consumed & r' & Hrun' & Hcut & Href & Hw' & _);
    [apply fresh_watch_holds|unfold nul_free; apply not_elem_of_nil
    |unfold nl_free; apply not_elem_of_nil|done|].
  rewrite Hrun in Hrun'. injection Hrun' as <- <- <-.
  exists consumed. split; [done|].
  apply reference_assembler_no_split in Href; [|done].
  apply split_on_nl_split_from in Href. rewrite Href, without_last_snoc.
  split; [done|]. rewrite last_snoc.
  destruct Hw' as (_ & -> & ->). done.
Qed.

(** A run that satisfies the hypotheses of C1: two finished lines and an
    unfinished third, read three bytes first and the rest after. *)
Lemma C1_line_split_correct_witness :
  let s := chars "ab" ++ [NL] ++ chars "cd" ++ [NL] ++ chars "e" in
  let run := read_stream (fresh_watch (chars "f") true (-1)) s [3; 100] in
  nul_free s
  ∧ run = (run.1.1, [HandleLine (chars "f") (chars "ab"); HandleLine (chars "f") (chars "cd")], [])
  ∧ ∃ consumed,
      s = consumed ++ []
      ∧ [chars "ab"; chars "cd"] = without_last (split_on_nl consumed)
      ∧ last (split_on_nl consumed) = Some (chars "e").
Proof.
  intros s run.
  assert (nul_free s) as Hs.
  { apply (bool_decide_unpack _). vm_compute. exact I. }
  assert (run = (run.1.1, [HandleLine (chars "f") (chars "ab");
                           HandleLine (chars "f") (chars "cd")], [])) as Hrun
    by (vm_compute; reflexivity).
  split; [exact Hs|]. split; [exact Hrun|].
  apply (C1_line_split_correct (chars "f") true (-1) s [3; 100] run.1.1 _ [] Hs Hrun).
  vm_compute. reflexivity.
Defined.

(** C1, as stated, fails in two ways.  An input that does not end in a
    newline: its last segment is not empty, so the claim expects it among
    the lines, but the program keeps it back.  An input with a NUL byte:
    [strchr] stops at the NUL and never sees the newline behind it. *)
Lemma C1_counterexample :
  (let s := chars "a" ++ [NL] ++ chars "b" in
   let '(w, evs, rest) := read_stream (fresh_watch (chars "f") true (-1)) s [4096] in
   rest = [] ∧ forced_splits evs = 0
   ∧ handled_lines evs = [chars "a"]
   ∧ without_trailing_empty (split_on_nl s) = [chars "a"; chars "b"])
  ∧
  (let s := chars "a" ++ [NUL] ++ chars "b" ++ [NL] in
   let '(w, evs, rest) := read_stream (fresh_watch (chars "f") true (-1)) s [4096] in
   rest = [] ∧ forced_splits evs = 0
   ∧ handled_lines evs = []
   ∧ without_trailing_empty (split_on_nl s) = [chars "a" ++ [NUL] ++ chars "b"]).
Proof. split; vm_compute; repeat split; reflexivity. Qed.

(** C2, as amended.  Overflow determinism: reading one NUL-free line
    without newline, of any length, followed by its newline, in chunks of
    arbitrary sizes, splits off by force one block of exactly
    [LINE_BUFFER_SIZE - 1] bytes each time the buffer fills up, that is
    [length line / (LINE_BUFFER_SIZE - 1)] times (exactly once when the
    length is at least [LINE_BUFFER_SIZE - 1] and below twice that); after
    each forced split the following bytes are assembled as a fresh line,
    which the newline finishes.  No byte is lost: the emissions
    concatenate to the line, and the buffer ends empty. *)
Theorem C2_forced_split nm isf wd line ns w' evs :
  nul_free line → nl_free line →
  read_stream (fresh_watch nm isf wd) (line ++ [NL]) ns = (w', evs, []) →
  ∃ blocks tail,
    line = concat blocks ++ tail
    ∧ Forall (λ b, length b = LINE_BUFFER_SIZE - 1) blocks
    ∧ length tail < LINE_BUFFER_SIZE - 1
    ∧ evs = flat_map (forced_split nm) blocks ++ [HandleLine nm tail]
    ∧ forced_splits evs = length line / (LINE_BUFFER_SIZE - 1)
    ∧ concat (handled_lines evs) = line
    ∧ line_buffer_pos w' = 0
    ∧ (LINE_BUFFER_SIZE - 1 ≤ length line < 2 * (LINE_BUFFER_SIZE - 1) →
       forced_splits evs = 1).
Proof.
  intros Hnul Hnl Hrun. pose proof LINE_BUFFER_SIZE_val as HC.
  destruct (read_stream_reference ns (line ++ [NL]) (fresh_watch nm isf wd) [])
    as (w2 & evs2 & rest2 & consumed & r' & Hrun' & Hcut & Href & Hw' & _);
    [apply fresh_watch_holds|unfold nul_free; apply not_elem_of_nil
    |unfold nl_free; apply not_elem_of_nil| |].
  { unfold nul_free in *. rewrite elem_of_app, list_elem_of_singleton.
    intros [?|?]; [done|]. by apply NL_neq_NUL. }
  rewrite Hrun in Hrun'. injection Hrun' as <- <- <-.
  rewrite app_nil_r in Hcut. subst consumed.
  destruct (reference_assembler_line nm line [] Hnl ltac:(simpl; lia))
    as (blocks & tail & Hcat & Hall & Htail & Hline).
  simpl in Hcat, Href. rewrite Hline in Href. injection Href as <- <-.
  exists blocks, tail.
  assert (forced_splits (flat_map (forced_split nm) blocks ++ [HandleLine nm tail])
          = length blocks) as Hcount.
  { rewrite forced_splits_app, forced_splits_blocks, forced_splits_handle.
    unfold forced_splits. simpl. lia. }
  assert (length line = (LINE_BUFFER_SIZE - 1) * length blocks + length tail) as Hlen.
  { rewrite Hcat, length_app, (length_concat_blocks _ _ Hall). done. }
  repeat split; try done.
  - rewrite Hcount. by apply Nat.div_unique with (r := length tail).
  - rewrite handled_lines_app, handled_lines_blocks. unfold handled_lines. simpl.
    rewrite concat_app. simpl. by rewrite app_nil_r.
  - by destruct Hw' as (_ & -> & _).
  - intros [Hlo Hhi]. rewrite Hcount. rewrite HC in *. lia.
Qed.

(** A run that satisfies the hypotheses of C2: a line of 4100 bytes read
    in full reads. *)
Lemma C2_forced_split_witness :
  let line := replicate 4100 "a"%char in
  let run := read_stream (fresh_watch (chars "f") true (-1)) (line ++ [NL])
                         [4096; 4096] in
  nul_free line ∧ nl_free line ∧ run.2 = []
  ∧ forced_splits run.1.2 = 1
  ∧ concat (handled_lines run.1.2) = line.
Proof.
  intros line run.
  assert (nul_free line) as H0 by (intros [? _]%elem_of_replicate; discriminate).
  assert (nl_free line) as H1 by (intros [? _]%elem_of_replicate; discriminate).
  assert (run = (run.1.1, run.1.2, [])) as Hrun by (vm_compute; reflexivity).
  destruct (C2_forced_split (chars "f") true (-1) line [4096; 4096] _ _ H0 H1 Hrun)
    as (blocks & tail & _ & _ & _ & _ & Hn & Hcat & _ & _).
  split; [exact H0|]. split; [exact H1|]. split; [vm_compute; reflexivity|].
  split; [|exact Hcat]. rewrite Hn. vm_compute. reflexivity.
Defined.

(** C2, as stated, fails on a long enough line: 8190 bytes without newline
    fill the buffer twice, and two forced splits are logged, not one. *)
Lemma C2_counterexample :
  let line := replicate (2 * 4095) "a"%char in
  let run := read_stream (fresh_watch (chars "f") true (-1)) (line ++ [NL])
                         [4096; 4096; 4096] in
  LINE_BUFFER_SIZE ≤ length line ∧ run.2 = []
  ∧ forced_splits run.1.2 = 2
  ∧ length <$> handled_lines run.1.2 = [4095; 4095; 0].
Proof.
  intros line run. split.
  { subst line. rewrite length_replicate. pose proof LINE_BUFFER_SIZE_val. lia. }
  vm_compute. repeat split; reflexivity.
Qed.

(** C10, as amended.  Buffer safety: after any sequence of reads through the
    assembler, of any bytes in any chunk sizes, the buffer has its full
    size and the cursor is below [LINE_BUFFER_SIZE - 1]; a further read,
    which is given the count [LINE_BUFFER_SIZE - cursor - 1] and so returns
    at most that many bytes, stores them inside the buffer from the cursor
    on, moves the cursor past them to a position still below
    [LINE_BUFFER_SIZE], and leaves a NUL at the cursor; line extraction
    then never subtracts more from the cursor than it holds and brings it
    back below [LINE_BUFFER_SIZE - 1]. *)
Theorem C10_cursor_in_bounds nm isf wd s ns bs :
  let w := (read_stream (fresh_watch nm isf wd) s ns).1.1 in
  let w1 := (do_read w (ReadData bs)).1.1 in
  bs ≠ [] → length bs ≤ read_count w →
  length (line_buffer_data w) = LINE_BUFFER_SIZE
  ∧ line_buffer_pos w < LINE_BUFFER_SIZE - 1
  ∧ read_count w = LINE_BUFFER_SIZE - line_buffer_pos w - 1
  ∧ length (line_buffer_data w1) = LINE_BUFFER_SIZE
  ∧ line_buffer_pos w1 = line_buffer_pos w + length bs
  ∧ line_buffer_pos w1 < LINE_BUFFER_SIZE
  ∧ take (length bs) (drop (line_buffer_pos w) (line_buffer_data w1)) = bs
  ∧ line_buffer_data w1 !! line_buffer_pos w1 = Some NUL
  ∧ (handle_lines_loop LINE_BUFFER_SIZE (name w1) (line_buffer_data w1) 0).1.2
      ≤ line_buffer_pos w1
  ∧ buf_ok (handle_lines w1).1.
Proof.
  intros w w1 Hne Hfit. pose proof LINE_BUFFER_SIZE_val as HC.
  pose proof (read_stream_buf_ok ns s _ (fresh_watch_buf_ok nm isf wd)) as [Hlen Hpos].
  fold w in Hlen, Hpos.
  destruct (do_read_accepts w bs) as (w1' & Hdo & _ & _ & _ & Hlen1 & Hpos1 & Hle1 & Hdata1);
    [done|lia|done|done|].
  pose proof (do_read_terminated w bs Hlen ltac:(lia) Hne Hfit) as Hnul.
  fold w1 in Hnul. assert (w1 = w1') as <- by (subst w1; by rewrite Hdo).
  pose proof (handle_lines_bounds w1 Hlen1 Hle1 Hnul) as (Hoff & Hok & _).
  repeat split; try done; try lia; try apply Hok.
  rewrite Hdata1.
  assert (length (take (line_buffer_pos w) (line_buffer_data w)) = line_buffer_pos w)
    as Htk by (rewrite length_take; lia).
  rewrite <- Htk at 1. rewrite drop_app_length. apply take_app_length.
Qed.

(** An instance of C10: after one line and a half, four more bytes. *)
Lemma C10_cursor_in_bounds_witness :
  let w := (read_stream (fresh_watch (chars "f") true (-1))
              (chars "ab" ++ [NL] ++ chars "cd") [100]).1.1 in
  let w1 := (do_read w (ReadData (chars "wxyz"))).1.1 in
  chars "wxyz" ≠ [] ∧ length (chars "wxyz") ≤ read_count w
  ∧ line_buffer_pos w = 2 ∧ line_buffer_pos w1 = 6
  ∧ line_buffer_data w1 !! 6 = Some NUL.
Proof.
  intros w w1.
  assert (chars "wxyz" ≠ []) as Hne by discriminate.
  assert (length (chars "wxyz") ≤ read_count w) as Hfit by (vm_compute; lia).
  pose proof (C10_cursor_in_bounds (chars "f") true (-1)
                (chars "ab" ++ [NL] ++ chars "cd") [100] (chars "wxyz") Hne Hfit)
    as (_ & _ & _ & _ & _ & _ & _ & Hnul & _).
  split; [exact Hne|]. split; [exact Hfit|].
  split; [vm_compute; reflexivity|]. split; [vm_compute; reflexivity|].
  assert (line_buffer_pos w1 = 6) as <- by (vm_compute; reflexivity).
  exact Hnul.
Defined.

(** C10, as stated, fails in its last clause.  After one whole feed of
    [hello], a newline and [wor] ([do_read], then [handle_lines]), the
    residual [wor] has been moved to the front and the cursor is 3, but the
    byte at the cursor is the second [l] of [hello], left where it was:
    [handle_lines] moves the residual without its terminator.  The next
    [do_read] writes from the cursor on and terminates the buffer again. *)
Lemma C10_counterexample :
  let w := (feed (fresh_watch (chars "f") true (-1))
                 (ReadData (chars "hello" ++ [NL] ++ chars "wor"))).1.1 in
  line_buffer_pos w = 3
  ∧ take 3 (line_buffer_data w) = chars "wor"
  ∧ line_buffer_data w !! 3 = Some "l"%char
  ∧ line_buffer_data w !! line_buffer_pos w ≠ Some NUL.
Proof. vm_compute. repeat split; try reflexivity. discriminate. Qed.

(** * The claims about the watch lifecycle: runs *)



(** C5 on the failing input.  With room for a single inotify watch, the
    directory watch for [/tmp] takes it; [open] on the existing file then
    succeeds and [inotify_add_watch] fails, and [reinit_file] returns with
    the descriptor open and no watch: a descriptor without a handle. *)
Theorem C5_descriptor_without_watch :
  let k := ext_create (tmp_world 1) log_txt (Regular (chars "x" ++ [NL])) in
  let st := started k in
  name <$> registry st = [log_txt; chars "/tmp"]
  ∧ kind_is_file <$> registry st = [true; false]
  ∧ fd <$> registry st = [4; -1]%Z
  ∧ watch_desc <$> registry st = [-1; 1]%Z
  ∧ trace st = [CallReinit 0; LogWatchFailed log_txt]
  ∧ is_Some (descriptors (kernel st) !! 4%Z)
  ∧ dom (inotify_watches (kernel st)) = {[ 1%Z ]}.
Proof. vm_compute. repeat split; try reflexivity. by eexists. Qed.

(** C8 on the failing input.  The record is Watching and holds the
    unfinished line [abc] when another file is renamed over its path.  The
    moved-to event leads to [reinit_file], which succeeds: descriptor,
    watch and offset are those of the new file, but the cursor is still 3
    and the buffer still starts with [abc], so the first line of the new
    file comes out glued to these bytes. *)
Theorem C8_reinit_keeps_residual :
  let k := ext_create (tmp_world 128) log_txt (Regular []) in
  let st0 := started k in
  let st1 := read_events (meanwhile st0 (λ k, ext_append k log_txt (chars "abc")))
               [InotifyEvent (wd_of st0 0) IN_MODIFY []] in
  let st2 := read_events
               (meanwhile st1 (λ k, ext_create k log_txt (Regular (chars "hello" ++ [NL]))))
               [InotifyEvent (wd_of st1 1) IN_MOVED_TO (chars "log.txt")] in
  let st3 := read_events (meanwhile st2 (λ k, ext_append k log_txt (chars "def" ++ [NL])))
               [InotifyEvent (wd_of st2 0) IN_MODIFY []] in
  (fd <$> registry st1 = [4; -1]%Z
   ∧ watch_desc <$> registry st1 = [2; 1]%Z
   ∧ line_buffer_pos <$> registry st1 = [3; 0])
  ∧ (new_events st1 st2 = [CallReinit 0]
     ∧ fd <$> registry st2 = [4; -1]%Z
     ∧ watch_desc <$> registry st2 = [3; 1]%Z
     ∧ file_offset <$> registry st2 = [6; 0]%Z
     ∧ line_buffer_pos <$> registry st2 = [3; 0]
     ∧ (take 3 ∘ line_buffer_data) <$> registry st2 !! 0 = Some (chars "abc"))
  ∧ new_events st2 st3 = [HandleLine log_txt (chars "abcdef")].
Proof. vm_compute. repeat split; reflexivity. Qed.

(** C9, as amended.  Start-up: [main] returns the non-zero status -1
    before the event loop exactly when [inotify_init] fails; otherwise it
    enters the loop whatever the argument list is, with an empty registry
    when the list is empty. *)
Theorem C9_startup k args :
  main k false args = Exited (-1)
  ∧ main k true args = EntersLoop (init_files (State [] k []) args).1
  ∧ main k true [] = EntersLoop (State [] k []).
Proof.
  split; [done|]. split; [|done]. unfold main. simpl.
  assert (∀ names st, (init_files st names).2 = true) as Hok.
  { induction names as [|nm names IH]; intros st; simpl; [done|].
    destruct (init_watch st nm true) as [st1 idx]. simpl. apply IH. }
  specialize (Hok args (State [] k [])).
  destruct (init_files (State [] k []) args) as [st ok]. simpl in *. by subst ok.
Qed.

(** C9, as stated, fails: with no file path given and inotify available,
    [main] does not return but enters the event loop. *)
Lemma C9_counterexample :
  main (tmp_world 128) true [] = EntersLoop (State [] (tmp_world 128) [])
  ∧ ∀ status, main (tmp_world 128) true [] ≠ Exited status.
Proof. split; [reflexivity|]. intros status. discriminate. Qed.

(** * The registry *)

Lemma strrchr_absent b c : c ∉ b → strrchr b c = None.
Proof.
  induction b as [|x b IH]; intros Hb; simpl; [done|].
  apply not_elem_of_cons in Hb as [Hx Hb]. rewrite IH by done.
  destruct (Ascii.eqb_spec x c) as [->|_]; done.
Qed.

(** The last slash of [D/b], for a last component [b] without slash, is
    the one written between them. *)
Lemma strrchr_last_component D b :
  SLASH ∉ b → strrchr (D ++ SLASH :: b) SLASH = Some (length D).
Proof.
  intros Hb. induction D as [|x D IH]; simpl.
  - rewrite strrchr_absent by done. reflexivity.
  - by rewrite IH.
Qed.


Lemma strcmp_eq_true a b : strcmp_eq a b = true ↔ a = b.
Proof. unfold strcmp_eq. apply bool_decide_eq_true. Qed.

(** [find_watch_by_name] returns the first record of that name. *)
Lemma find_watch_by_name_Some st nm p :
  find_watch_by_name st nm = Some p ↔
  ∃ w, registry st !! p = Some w ∧ name w = nm
       ∧ ∀ j y, registry st !! j = Some y → j < p → name y ≠ nm.
Proof.
  unfold find_watch_by_name.
  destruct (list_find _ (registry st)) as [[i x]|] eqn:Hfind.
  - apply list_find_Some in Hfind as (Hi & Hx & Hfirst). apply strcmp_eq_true in Hx.
    split.
    + intros [= <-]. exists x. split; [done|]. split; [done|].
      intros j y Hj Hlt Hy. apply (Hfirst j y Hj Hlt). by apply strcmp_eq_true.
    + intros (w & Hp & Hw & Hbefore). f_equal.
      destruct (Nat.lt_trichotomy i p) as [Hlt|[->|Hlt]]; [|done|].
      * exfalso. by apply (Hbefore i x Hi Hlt).
      * exfalso. apply (Hfirst p w Hp Hlt). by apply strcmp_eq_true.
  - split; [done|]. intros (w & Hp & Hw & _). exfalso.
    apply list_find_None in Hfind. rewrite Forall_forall in Hfind.
    apply (Hfind w); [by eapply list_elem_of_lookup_2|by apply strcmp_eq_true].
Qed.

(** [find_watch_by_name] returns NULL exactly when no record has that
    name. *)
Lemma find_watch_by_name_None st nm :
  find_watch_by_name st nm = None ↔ ∀ w, w ∈ registry st → name w ≠ nm.
Proof.
  unfold find_watch_by_name.
  destruct (list_find _ (registry st)) as [[i x]|] eqn:Hfind.
  - apply list_find_Some in Hfind as (Hi & Hx & _). apply strcmp_eq_true in Hx.
    split; [done|]. intros Hall. exfalso.
    apply (Hall x); [by eapply list_elem_of_lookup_2|done].
  - split; [|done]. intros _ w Hw Hnm.
    apply list_find_None in Hfind. rewrite Forall_forall in Hfind.
    apply (Hfind w Hw). by apply strcmp_eq_true.
Qed.

(** How many records carry the name [nm]. *)
Lemma count_named_insert (reg : list file_watch) i w w' nm :
  reg !! i = Some w → name w' = name w →
  length (filter (λ x, name x = nm) (<[i := w']> reg))
  = length (filter (λ x, name x = nm) reg).
Proof.
  intros Hi Hnm.
  rewrite insert_take_drop by (by eapply lookup_lt_Some).
  rewrite <- (take_drop_middle reg i w Hi) at 3.
  rewrite !filter_app, !length_app, !filter_cons, Hnm.
  by destruct (decide (name w = nm)).
Qed.

Lemma count_named_zero (reg : list file_watch) nm :
  (∀ w, w ∈ reg → name w ≠ nm) → filter (λ x, name x = nm) reg = [].
Proof.
  induction reg as [|x reg IH]; intros Hall; [done|].
  rewrite filter_cons_False by (apply Hall; left).
  apply IH. intros w Hw. apply Hall. by right.
Qed.

Lemma insert_snoc {A} (l : list A) (x y : A) : <[length l := y]> (l ++ [x]) = l ++ [y].
Proof.
  replace (length l) with (length l + 0) by lia. by rewrite insert_app_r.
Qed.

(** [init_watch] links one record at the tail and returns it. *)
Lemma init_watch_registry st nm isf :
  ∃ wd, registry (init_watch st nm isf).1 = registry st ++ [fresh_watch nm isf wd]
        ∧ (init_watch st nm isf).2 = length (registry st)
        ∧ trace (init_watch st nm isf).1 = trace st
        ∧ (isf = true → wd = (-1)%Z ∧ kernel (init_watch st nm isf).1 = kernel st).
Proof.
  unfold init_watch. destruct isf; simpl.
  - exists (-1)%Z. by rewrite insert_snoc.
  - destruct (sys_inotify_add_watch (kernel st) nm (Z.lor IN_CREATE IN_MOVED_TO))
      as [wd k]. exists wd. simpl. by rewrite insert_snoc.
Qed.

(** What [wait_for_parent] does to the registry of a record [D/b] without
    parent: the first record named [D] becomes the parent; when there is
    none, a directory watch for [D] is linked at the tail first. *)
Lemma wait_for_parent_registry st i w D b :
  registry st !! i = Some w → parent w = None →
  name w = D ++ SLASH :: b → SLASH ∉ b →
  match find_watch_by_name st D with
  | Some p =>
      registry (wait_for_parent st i) = <[i := set_parent w (Some p)]> (registry st)
  | None =>
      ∃ wd, registry (wait_for_parent st i)
            = <[i := set_parent w (Some (length (registry st)))]> (registry st)
              ++ [fresh_watch D false wd]
  end.
Proof.
  intros Hi Hpar Hnm Hb. unfold wait_for_parent. rewrite Hi, Hpar, Hnm.
  rewrite strrchr_last_component by done. rewrite take_app_length.
  destruct (find_watch_by_name st D) as [p|]; [done|].
  destruct (init_watch_registry st D false) as (wd & Hreg & Hidx & _).
  destruct (init_watch st D false) as [st1 p]. simpl in *. subst p.
  exists wd. rewrite Hreg. by rewrite insert_app_l by (by eapply lookup_lt_Some).
Qed.

Lemma name_not_dir D b : D ++ SLASH :: b ≠ D.
Proof.
  intros H. apply (f_equal length) in H. rewrite length_app in H. simpl in H. lia.
Qed.

(** * The claims about the registry *)

(** C7, as amended.  Idempotent parent creation: let two records [D/bi] and [D/bj]
    of the same directory have no parent yet, the registry holding at most
    one record named [D], a directory watch if any.  After both have asked
    for their parent, in either order, the registry holds exactly one
    record named [D], it is a directory watch, and both records point to
    it: the second request finds the record the first one found or
    created. *)
Theorem C7_one_parent_watch st i j wi wj D bi bj :
  i ≠ j →
  registry st !! i = Some wi → registry st !! j = Some wj →
  name wi = D ++ SLASH :: bi → name wj = D ++ SLASH :: bj →
  SLASH ∉ bi → SLASH ∉ bj →
  parent wi = None → parent wj = None →
  Forall (λ w, name w = D → kind_is_file w = false) (registry st) →
  length (filter (λ w, name w = D) (registry st)) ≤ 1 →
  let st' := wait_for_parent (wait_for_parent st i) j in
  ∃ p d,
    registry st' !! p = Some d ∧ name d = D ∧ kind_is_file d = false
    ∧ parent <$> registry st' !! i = Some (Some p)
    ∧ parent <$> registry st' !! j = Some (Some p)
    ∧ length (filter (λ w, name w = D) (registry st')) = 1
    ∧ length (registry st')
      = length (registry st) + (1 - length (filter (λ w, name w = D) (registry st))).
Proof.
  intros Hij Hi Hj Hni Hnj Hbi Hbj Hpi Hpj Hkind Hcount st'.
  rewrite Forall_forall in Hkind.
  assert (i < length (registry st)) as Hilt by (by eapply lookup_lt_Some).
  assert (j < length (registry st)) as Hjlt by (by eapply lookup_lt_Some).
  pose proof (wait_for_parent_registry st i wi D bi Hi Hpi Hni Hbi) as H1.
  destruct (find_watch_by_name st D) as [p|] eqn:Hfind.
  - (* a record named D exists already *)
    apply find_watch_by_name_Some in Hfind as (d & Hp & Hd & Hfirst).
    assert (p ≠ i) as Hpi' by (intros ->; rewrite Hi in Hp; injection Hp as <-;
                                rewrite Hni in Hd; by apply name_not_dir in Hd).
    assert (p ≠ j) as Hpj' by (intros ->; rewrite Hj in Hp; injection Hp as <-;
                                rewrite Hnj in Hd; by apply name_not_dir in Hd).
    assert (registry (wait_for_parent st i) !! j = Some wj) as Hj1
      by (rewrite H1, list_lookup_insert_ne by done; done).
    assert (find_watch_by_name (wait_for_parent st i) D = Some p) as Hfind1.
    { apply find_watch_by_name_Some. exists d. rewrite H1.
      rewrite list_lookup_insert_ne by done. split; [done|]. split; [done|].
      intros k y Hk Hlt. destruct (decide (k = i)) as [->|Hne].
      - rewrite list_lookup_insert_eq in Hk by done. injection Hk as <-. simpl.
        rewrite Hni. apply name_not_dir.
      - rewrite list_lookup_insert_ne in Hk by done. by eapply Hfirst. }
    pose proof (wait_for_parent_registry _ j wj D bj Hj1 Hpj Hnj Hbj) as H2.
    rewrite Hfind1 in H2. fold st' in H2. rewrite H1 in H2.
    assert (length (filter (λ w, name w = D) (registry st)) = 1) as Hone.
    { assert (d ∈ filter (λ w, name w = D) (registry st)) as Hin
        by (apply list_elem_of_filter; split; [done|by eapply list_elem_of_lookup_2]).
      destruct (filter (λ w, name w = D) (registry st)); [by apply elem_of_nil in Hin|].
      simpl in *. lia. }
    exists p, d. rewrite H2.
    assert (<[j:=set_parent wj (Some p)]> (<[i:=set_parent wi (Some p)]> (registry st)) !! p
            = Some d) as ->
      by (by rewrite !list_lookup_insert_ne by done).
    assert (<[j:=set_parent wj (Some p)]> (<[i:=set_parent wi (Some p)]> (registry st)) !! i
            = Some (set_parent wi (Some p))) as ->
      by (rewrite list_lookup_insert_ne by done; by rewrite list_lookup_insert_eq).
    assert (<[j:=set_parent wj (Some p)]> (<[i:=set_parent wi (Some p)]> (registry st)) !! j
            = Some (set_parent wj (Some p))) as ->
      by (by rewrite list_lookup_insert_eq by (by rewrite length_insert)).
    split; [done|]. split; [done|].
    split; [apply Hkind; [by eapply list_elem_of_lookup_2|done]|].
    split; [done|]. split; [done|]. split.
    + rewrite (count_named_insert _ j wj) by (by rewrite ?list_lookup_insert_ne).
      by rewrite (count_named_insert _ i wi).
    + rewrite !length_insert, Hone. lia.
  - (* the first request creates the directory watch *)
    destruct H1 as (wd & H1).
    pose proof (proj1 (find_watch_by_name_None st D) Hfind) as Hnone.
    remember (length (registry st)) as n eqn:Hn.
    set (reg1 := <[i:=set_parent wi (Some n)]> (registry st)) in *.
    assert (length reg1 = n) as Hlen1 by (subst reg1 n; by rewrite length_insert).
    assert (reg1 !! i = Some (set_parent wi (Some n))) as Hi1
      by (subst reg1; apply list_lookup_insert_eq; lia).
    assert (reg1 !! j = Some wj) as Hj1'
      by (subst reg1; by rewrite list_lookup_insert_ne).
    assert (registry (wait_for_parent st i) !! j = Some wj) as Hj1.
    { rewrite H1, lookup_app_l by lia. done. }
    assert (find_watch_by_name (wait_for_parent st i) D = Some n) as Hfind1.
    { apply find_watch_by_name_Some. exists (fresh_watch D false wd). rewrite H1.
      split.
      { rewrite lookup_app_r by lia. by replace (n - length reg1) with 0 by lia. }
      split; [done|].
      intros k y Hk Hlt. rewrite lookup_app_l in Hk by lia.
      destruct (decide (k = i)) as [->|Hne].
      - rewrite Hi1 in Hk. injection Hk as <-. simpl.
        rewrite Hni. apply name_not_dir.
      - subst reg1. rewrite list_lookup_insert_ne in Hk by done.
        apply Hnone. by eapply list_elem_of_lookup_2. }
    pose proof (wait_for_parent_registry _ j wj D bj Hj1 Hpj Hnj Hbj) as H2.
    rewrite Hfind1 in H2. fold st' in H2. rewrite H1 in H2.
    exists n, (fresh_watch D false wd). rewrite H2.
    rewrite insert_app_l by lia.
    set (reg2 := <[j:=set_parent wj (Some n)]> reg1).
    assert (length reg2 = n) as Hlen2 by (subst reg2; by rewrite length_insert).
    assert (reg2 !! i = Some (set_parent wi (Some n))) as Hi2
      by (subst reg2; by rewrite list_lookup_insert_ne).
    assert (reg2 !! j = Some (set_parent wj (Some n))) as Hj2
      by (subst reg2; apply list_lookup_insert_eq; lia).
    rewrite lookup_app_r by lia. rewrite !lookup_app_l by lia.
    rewrite Hi2, Hj2, Hlen2. replace (n - n) with 0 by lia.
    split; [done|]. split; [done|]. split; [done|]. split; [done|]. split; [done|].
    rewrite filter_app, !length_app, Hlen2. subst reg2 reg1.
    rewrite (count_named_insert _ j wj) by (by rewrite ?list_lookup_insert_ne).
    rewrite (count_named_insert _ i wi) by done.
    rewrite (count_named_zero _ D Hnone).
    rewrite filter_cons_True by done. simpl. lia.
Qed.

(** A run that satisfies the hypotheses of C7: two fresh records for
    [/tmp/a] and [/tmp/b], no record for [/tmp] yet. *)
Lemma C7_one_parent_watch_witness :
  let st := State [fresh_watch (chars "/tmp/a") true (-1);
                   fresh_watch (chars "/tmp/b") true (-1)] (tmp_world 128) [] in
  let st' := wait_for_parent (wait_for_parent st 0) 1 in
  ∃ p d,
    registry st' !! p = Some d ∧ name d = chars "/tmp" ∧ kind_is_file d = false
    ∧ parent <$> registry st' !! 0 = Some (Some p)
    ∧ parent <$> registry st' !! 1 = Some (Some p)
    ∧ length (filter (λ w, name w = chars "/tmp") (registry st')) = 1
    ∧ length (registry st')
      = length (registry st)
        + (1 - length (filter (λ w, name w = chars "/tmp") (registry st))).
Proof.
  intros st st'.
  apply (C7_one_parent_watch st 0 1 (fresh_watch (chars "/tmp/a") true (-1))
           (fresh_watch (chars "/tmp/b") true (-1)) (chars "/tmp") (chars "a") (chars "b")).
  - lia.
  - reflexivity.
  - reflexivity.
  - reflexivity.
  - reflexivity.
  - apply (bool_decide_unpack _). vm_compute. exact I.
  - apply (bool_decide_unpack _). vm_compute. exact I.
  - reflexivity.
  - reflexivity.
  - repeat constructor; intros H; vm_compute in H; discriminate H.
  - vm_compute. lia.
Defined.

(** C7, as stated, fails when the directory itself is among the files to
    follow.  Started on [/tmp], [/tmp/a] and [/tmp/b], the program links a
    file record for [/tmp]; when the two others ask for their parent,
    [find_watch_by_name] finds that record, which is all it looks for, and
    both point to it.  No directory watch for [/tmp] exists, and the only
    kernel watch on [/tmp] is the file record's, which does not ask for
    create or moved-to events. *)
Lemma C7_counterexample :
  let st := (init_files (State [] (tmp_world 128) [])
                        [chars "/tmp"; chars "/tmp/a"; chars "/tmp/b"]).1 in
  name <$> registry st = [chars "/tmp"; []; chars "/tmp/a"; chars "/tmp/b"]
  ∧ kind_is_file <$> registry st = [true; false; true; true]
  ∧ parent <$> registry st = [Some 1; None; Some 0; Some 0]
  ∧ length (filter (λ w, name w = chars "/tmp" ∧ kind_is_file w = false) (registry st)) = 0
  ∧ map_to_list (inotify_watches (kernel st))
    = [(1%Z, (0, Z.lor IN_MODIFY (Z.lor IN_MOVE_SELF IN_DELETE_SELF)))].
Proof. vm_compute. repeat split; reflexivity. Qed.

(** * Reading a watched file *)

Lemma handle_lines_loop_no_reinit fuel nm : ∀ data start,
  reinit_calls (handle_lines_loop fuel nm data start).2 = [].
Proof.
  induction fuel as [|fuel IH]; intros data start; [done|].
  cbn [handle_lines_loop]. destruct (strchr data start NL) as [e|]; [|done].
  specialize (IH (<[e:=NUL]> data) (S e)).
  destruct (handle_lines_loop fuel nm (<[e:=NUL]> data) (S e)) as [[d s] evs].
  exact IH.
Qed.

Lemma reinit_calls_app e1 e2 : reinit_calls (e1 ++ e2) = reinit_calls e1 ++ reinit_calls e2.
Proof. unfold reinit_calls. apply omap_app. Qed.

(** The assembler never enters [reinit_file]. *)
Lemma feed_no_reinit w ret : reinit_calls (feed w ret).2 = [].
Proof.
  unfold feed. destruct ret as [|[|b bs]]; [done|done|].
  cbn [do_read]. unfold handle_lines.
  match goal with |- context [handle_lines_loop ?f ?n ?d ?s] =>
    pose proof (handle_lines_loop_no_reinit f n d s) as Hloop;
    destruct (handle_lines_loop f n d s) as [[data start] evs] end.
  cbn [snd] in Hloop. unfold split_long_line.
  case_bool_decide; cbn [snd app]; rewrite reinit_calls_app, Hloop; done.
Qed.

Lemma feed_accepts w bs : bs ≠ [] → (feed w (ReadData bs)).1.2 = true.
Proof.
  intros Hne. unfold feed. destruct bs as [|b bs]; [done|].
  cbn [do_read]. by destruct (handle_lines _).
Qed.

Lemma feed_nothing w : feed w (ReadData []) = (w, false, []).
Proof. reflexivity. Qed.

(** The read loop on a regular file reads up to the end of the file: it
    stops because [read] returns zero, not for lack of fuel, and leaves the
    file position at the end.  Only the file position and the buffer of
    the record change. *)
Lemma read_loop_drains fuel : ∀ k w ino pos content,
  buf_ok w →
  descriptors k !! fd w = Some (ino, pos) →
  inodes k !! ino = Some (Regular content) →
  length content - pos < fuel →
  ∃ w' evs,
    read_loop fuel k w
    = (set_descriptors k (<[fd w := (ino, pos `max` length content)]> (descriptors k)), w', evs)
    ∧ buf_ok w' ∧ name w' = name w ∧ fd w' = fd w ∧ watch_desc w' = watch_desc w
    ∧ file_offset w' = file_offset w ∧ parent w' = parent w
    ∧ kind_is_file w' = kind_is_file w
    ∧ reinit_calls evs = []
    ∧ (length content ≤ pos → w' = w ∧ evs = []).
Proof.
  pose proof LINE_BUFFER_SIZE_val as HC.
  induction fuel as [|fuel IH]; intros k w ino pos content Hok Hd Hi Hfuel; [lia|].
  cbn [read_loop]. unfold sys_read. rewrite Hd, Hi.
  set (bs := take (read_count w) (drop pos content)).
  assert (length bs = read_count w `min` (length content - pos)) as Hbs
    by (subst bs; by rewrite length_take, length_drop).
  destruct (decide (length content ≤ pos)) as [Hend|Hmore].
  - assert (bs = []) as -> by (apply nil_length_inv; lia).
    rewrite feed_nothing. exists w, []. simpl.
    replace (pos + 0) with pos by lia. rewrite Nat.max_l by lia. done.
  - assert (bs ≠ []) as Hne.
    { intros Hnil. rewrite Hnil in Hbs. simpl in Hbs.
      destruct Hok as [_ Hpos]. unfold read_count in Hbs. lia. }
    assert (0 < length bs) as Hpos by (destruct bs; [done|simpl; lia]).
    pose proof (feed_bounds w (ReadData bs) Hok) as Hf.
    destruct Hf as (Hok1 & Hn1 & Hfd1 & Hwd1 & Hoff1 & Hpar1 & Hkind1).
    { intros ? [= <-]. lia. }
    pose proof (feed_accepts w bs Hne) as Hacc.
    pose proof (feed_no_reinit w (ReadData bs)) as Hnr.
    destruct (feed w (ReadData bs)) as [[w1 ok] evs1]. cbn [fst snd] in *. subst ok.
    set (k1 := set_descriptors k (<[fd w:=(ino, pos + length bs)]> (descriptors k))).
    destruct (IH k1 w1 ino (pos + length bs) content Hok1) as (w' & evs & Hrun & Hrest).
    { subst k1. cbn [descriptors set_descriptors]. rewrite Hfd1. apply lookup_insert_eq. }
    { done. }
    { lia. }
    rewrite Hrun. exists w', (evs1 ++ evs).
    destruct Hrest as (? & ? & ? & ? & ? & ? & ? & Hnr' & _).
    split.
    { subst k1. unfold set_descriptors. cbn [descriptors first_fd paths inodes
        inotify_watches next_wd max_user_watches].
      rewrite Hfd1, insert_insert_eq.
      rewrite !Nat.max_r by lia. done. }
    split; [done|]. rewrite reinit_calls_app, Hnr, Hnr'.
    repeat split; try congruence; lia.
Qed.

(** * The read loop as a run of the assembler *)

Lemma read_stream_nil ns : ∀ w, read_stream w [] ns = (w, [], []).
Proof.
  induction ns as [|n ns IH]; intros w; [done|].
  cbn [read_stream]. rewrite take_nil, feed_nothing. cbn [length drop].
  by rewrite IH.
Qed.

(** On a regular file the read loop is the assembler run on the rest of
    the file, each [read] returning as much as it was asked for. *)
Lemma read_loop_stream fuel : ∀ k w ino pos content,
  buf_ok w →
  descriptors k !! fd w = Some (ino, pos) →
  inodes k !! ino = Some (Regular content) →
  length content - pos < fuel →
  read_stream w (drop pos content) (replicate fuel LINE_BUFFER_SIZE)
  = ((read_loop fuel k w).1.2, (read_loop fuel k w).2, []).
Proof.
  pose proof LINE_BUFFER_SIZE_val as HC.
  induction fuel as [|fuel IH]; intros k w ino pos content Hok Hd Hi Hfuel; [lia|].
  cbn [replicate read_stream read_loop]. unfold sys_read. rewrite Hd, Hi.
  assert (LINE_BUFFER_SIZE `min` read_count w = read_count w) as ->
    by (unfold read_count; lia).
  set (bs := take (read_count w) (drop pos content)).
  assert (length bs = read_count w `min` (length content - pos)) as Hbs
    by (subst bs; by rewrite length_take, length_drop).
  destruct (decide (length content ≤ pos)) as [Hend|Hmore].
  - assert (bs = []) as -> by (apply nil_length_inv; lia).
    rewrite feed_nothing. cbn [length]. rewrite drop_0.
    rewrite drop_ge by done. by rewrite read_stream_nil.
  - assert (bs ≠ []) as Hne.
    { intros Hnil. rewrite Hnil in Hbs. simpl in Hbs.
      destruct Hok as [_ Hpos]. unfold read_count in Hbs. lia. }
    assert (0 < length bs) as Hpos by (destruct bs; [done|simpl; lia]).
    pose proof (feed_bounds w (ReadData bs) Hok) as Hf.
    destruct Hf as (Hok1 & _ & Hfd1 & _).
    { intros ? [= <-]. lia. }
    pose proof (feed_accepts w bs Hne) as Hacc.
    destruct (feed w (ReadData bs)) as [[w1 ok] evs1]. cbn [fst snd] in *. subst ok.
    rewrite drop_drop.
    specialize (IH (set_descriptors k (<[fd w:=(ino, pos + length bs)]> (descriptors k))) w1 ino (pos + length bs) content Hok1).
    rewrite IH.
    + by destruct (read_loop fuel _ w1) as [[k2 w2] evs2].
    + cbn [descriptors set_descriptors]. rewrite Hfd1. apply lookup_insert_eq.
    + done.
    + lia.
Qed.

(** * The claim about truncation *)



(** * A file appears in a watched directory *)

Lemma skip_slashes_spec s :
  ∃ k, s = replicate k SLASH ++ skip_slashes s ∧ head (skip_slashes s) ≠ Some SLASH.
Proof.
  induction s as [|c s (k & Hk & Hhead)]; [by exists 0|]. simpl.
  destruct (Ascii.eqb_spec c SLASH) as [->|Hc].
  - exists (S k). simpl. by rewrite <- Hk.
  - exists 0. simpl. split; [done|]. by intros [= ->].
Qed.

Lemma skip_slashes_replicate k child :
  head child ≠ Some SLASH → skip_slashes (replicate k SLASH ++ child) = child.
Proof.
  intros Hhead. induction k as [|k IH]; simpl.
  - destruct child as [|c child]; [done|]. simpl.
    destruct (Ascii.eqb_spec c SLASH) as [->|_]; done.
  - done.
Qed.

(** The test of [file_appeared] accepts exactly the names made of the
    directory name, any number of slashes (none included), and the child
    name, the child name not starting with a slash. *)
Lemma appeared_match_spec dir nm child :
  appeared_match dir nm child = true ↔
  ∃ k, nm = dir ++ replicate k SLASH ++ child ∧ head child ≠ Some SLASH.
Proof.
  unfold appeared_match, strncmp_eq. rewrite andb_true_iff, bool_decide_eq_true, strcmp_eq_true.
  split.
  - intros [Hpre Hrest]. rewrite take_ge in Hpre by done.
    destruct (skip_slashes_spec (drop (length dir) nm)) as (k & Hk & Hhead).
    rewrite Hrest in Hk, Hhead. exists k. split; [|done].
    rewrite <- Hk. rewrite Hpre at 1. by rewrite take_drop.
  - intros (k & -> & Hhead). rewrite take_ge by done.
    rewrite take_app_length, drop_app_length. split; [done|].
    by apply skip_slashes_replicate.
Qed.





(** * The claim about file_appeared *)




(** * Further properties of the line assembler *)

(** Chunk independence.  Two ways of cutting the same NUL-free stream
    into reads, both consuming it entirely, hand the same lines to
    [handle_line], log the same forced splits, and leave the same
    residual; the events are those of the byte-at-a-time reference. *)
Theorem read_stream_chunk_independent nm isf wd s ns1 ns2 w1 evs1 w2 evs2 :
  nul_free s →
  read_stream (fresh_watch nm isf wd) s ns1 = (w1, evs1, []) →
  read_stream (fresh_watch nm isf wd) s ns2 = (w2, evs2, []) →
  evs1 = evs2
  ∧ evs1 = (reference_assembler nm [] s).1
  ∧ line_buffer_pos w1 = line_buffer_pos w2
  ∧ take (line_buffer_pos w1) (line_buffer_data w1)
    = take (line_buffer_pos w2) (line_buffer_data w2).
Proof.
  intros Hs H1 H2.
  assert (nul_free [] ∧ nl_free []) as [Hn0 Hn1]
    by (split; [unfold nul_free|unfold nl_free]; apply not_elem_of_nil).
  destruct (read_stream_reference ns1 s (fresh_watch nm isf wd) []
              (fresh_watch_holds nm isf wd) Hn0 Hn1 Hs)
    as (w1' & e1 & rest1 & c1 & r1 & Hrun1 & Hcut1 & Href1 & Hw1 & _).
  destruct (read_stream_reference ns2 s (fresh_watch nm isf wd) []
              (fresh_watch_holds nm isf wd) Hn0 Hn1 Hs)
    as (w2' & e2 & rest2 & c2 & r2 & Hrun2 & Hcut2 & Href2 & Hw2 & _).
  rewrite H1 in Hrun1. injection Hrun1 as <- <- <-.
  rewrite H2 in Hrun2. injection Hrun2 as <- <- <-.
  rewrite app_nil_r in Hcut1, Hcut2. subst c1 c2.
  cbn [name fresh_watch] in Href1, Href2.
  rewrite Href1 in Href2. injection Href2 as <- <-.
  rewrite Href1. cbn [fst].
  destruct Hw1 as (_ & Hp1 & Ht1). destruct Hw2 as (_ & Hp2 & Ht2).
  rewrite Hp1, Hp2, Ht1, Ht2. done.
Qed.

(** Two chunkings of one stream: three bytes then the rest, and byte by
    byte. *)
Lemma read_stream_chunk_independent_witness :
  let s := chars "ab" ++ [NL] ++ chars "cd" ++ [NL] ++ chars "e" in
  let run1 := read_stream (fresh_watch (chars "f") true (-1)) s [3; 100] in
  let run2 := read_stream (fresh_watch (chars "f") true (-1)) s [1; 1; 1; 1; 1; 1; 1] in
  nul_free s ∧ run1.2 = [] ∧ run2.2 = [] ∧ run1.1.2 = run2.1.2.
Proof.
  intros s run1 run2.
  assert (nul_free s) as Hs by (apply (bool_decide_unpack _); vm_compute; exact I).
  assert (run1 = (run1.1.1, run1.1.2, [])) as H1 by (vm_compute; reflexivity).
  assert (run2 = (run2.1.1, run2.1.2, [])) as H2 by (vm_compute; reflexivity).
  split; [exact Hs|]. split; [vm_compute; reflexivity|]. split; [vm_compute; reflexivity|].
  apply (read_stream_chunk_independent (chars "f") true (-1) s [3; 100]
           [1; 1; 1; 1; 1; 1; 1] _ _ _ _ Hs H1 H2).
Defined.

(** * Further properties of the watch lifecycle *)

(** The path test of [file_appeared], as the code has it: a record matches
    the directory [dir] and the child name [child] exactly when its name
    is [dir], then any number of slashes, none included, then [child], and
    [child] does not start with a slash.  So the directory name need only
    be a prefix of the record's name: no slash has to separate the two. *)
Theorem appeared_match_iff dir nm child :
  appeared_match dir nm child = true ↔
  ∃ k, nm = dir ++ replicate k SLASH ++ child ∧ head child ≠ Some SLASH.
Proof. apply appeared_match_spec. Qed.

(** [wait_for_parent] is idempotent: asking again changes nothing. *)
Theorem wait_for_parent_idempotent st i :
  wait_for_parent (wait_for_parent st i) i = wait_for_parent st i.
Proof.
  destruct (registry st !! i) as [w|] eqn:Hi.
  2: { assert (wait_for_parent st i = st) as Hsame
         by (unfold wait_for_parent; by rewrite Hi).
       by rewrite !Hsame. }
  assert (∀ st1 p, registry st1 !! i = Some (set_parent w (Some p)) →
                   wait_for_parent st1 i = st1) as Hset.
  { intros st1 p H1. unfold wait_for_parent. by rewrite H1. }
  assert (wait_for_parent st i = st
          ∨ ∃ p, registry (wait_for_parent st i) !! i = Some (set_parent w (Some p)))
    as [Hsame|(p & Hp)].
  { unfold wait_for_parent. rewrite Hi.
    destruct (parent w) as [p|]; [by left|].
    destruct (strrchr (name w) SLASH) as [e|]; [|by left].
    assert (i < length (registry st)) as Hlt by (by eapply lookup_lt_Some).
    destruct (find_watch_by_name st (take e (name w))) as [p|].
    - right. exists p. cbn [registry set_entry]. by apply list_lookup_insert_eq.
    - destruct (init_watch_registry st (take e (name w)) false) as (wd & Hreg & _).
      destruct (init_watch st (take e (name w)) false) as [st1 p]. cbn [fst] in Hreg.
      right. exists p. cbn [registry set_entry].
      apply list_lookup_insert_eq. rewrite Hreg, length_app. lia. }
  - by rewrite !Hsame.
  - by apply (Hset _ p).
Qed.

(** A record whose name holds no slash never gets a parent:
    [wait_for_parent] leaves the whole state as it is, so no directory
    watch is created for it. *)
Theorem wait_for_parent_no_slash st i w :
  registry st !! i = Some w → SLASH ∉ name w →
  wait_for_parent st i = st.
Proof.
  intros Hi Hslash. unfold wait_for_parent. rewrite Hi.
  destruct (parent w); [done|]. by rewrite strrchr_absent.
Qed.

Lemma wait_for_parent_no_slash_witness :
  let st := State [fresh_watch (chars "log.txt") true (-1)] (tmp_world 128) [] in
  (SLASH ∉ chars "log.txt") ∧ wait_for_parent st 0 = st.
Proof.
  intros st.
  assert (SLASH ∉ chars "log.txt") as H by (apply (bool_decide_unpack _); vm_compute; exact I).
  split; [exact H|].
  apply (wait_for_parent_no_slash st 0 (fresh_watch (chars "log.txt") true (-1)) eq_refl H).
Defined.

(** ** What the system calls leave alone *)

Lemma sys_inotify_add_watch_result k path mask :
  paths (sys_inotify_add_watch k path mask).2 = paths k
  ∧ inodes (sys_inotify_add_watch k path mask).2 = inodes k
  ∧ descriptors (sys_inotify_add_watch k path mask).2 = descriptors k
  ∧ first_fd (sys_inotify_add_watch k path mask).2 = first_fd k
  ∧ ((sys_inotify_add_watch k path mask).1 = (-1)%Z
     ∨ ∃ ino, paths k !! path = Some ino
              ∧ inotify_watches (sys_inotify_add_watch k path mask).2
                  !! (sys_inotify_add_watch k path mask).1 = Some (ino, mask)).
Proof.
  unfold sys_inotify_add_watch.
  destruct (paths k !! path) as [ino|]; [|cbn; do 4 (split; [done|]); by left].
  destruct (watch_of_inode k ino) as [wd|].
  - cbn. do 4 (split; [done|]). right. exists ino. split; [done|]. apply lookup_insert_eq.
  - case_bool_decide; cbn; [do 4 (split; [done|]); by left|].
    do 4 (split; [done|]). right. exists ino. split; [done|]. apply lookup_insert_eq.
Qed.

Lemma lowest_free_delete fuel : ∀ (ds : gmap Z (nat * nat)) d x,
  (x < d)%Z → lowest_free fuel (delete x ds) d = lowest_free fuel ds d.
Proof.
  induction fuel as [|fuel IH]; intros ds d x Hx; [done|].
  cbn [lowest_free]. rewrite lookup_delete_ne by lia.
  destruct (ds !! d); [|done]. apply IH. lia.
Qed.

(** [lowest_free], with as much fuel as there are descriptors, returns a
    free number, the lowest one from [d] on. *)
Lemma lowest_free_spec fuel : ∀ (ds : gmap Z (nat * nat)) d,
  size ds ≤ fuel →
  ds !! lowest_free fuel ds d = None
  ∧ (d ≤ lowest_free fuel ds d)%Z
  ∧ ∀ x, (d ≤ x < lowest_free fuel ds d)%Z → is_Some (ds !! x).
Proof.
  induction fuel as [|fuel IH]; intros ds d Hsize.
  - cbn [lowest_free]. assert (ds = ∅) as -> by (apply map_size_empty_inv; lia).
    split; [apply lookup_empty|]. split; [lia|]. intros x Hx. lia.
  - cbn [lowest_free]. destruct (ds !! d) as [v|] eqn:Hd.
    + destruct (IH (delete d ds) (d + 1)%Z) as (Hfree & Hle & Hbelow).
      { rewrite map_size_delete_Some by (by eexists). lia. }
      pose proof (lowest_free_delete fuel ds (d + 1)%Z d ltac:(lia)) as Heq.
      rewrite Heq in Hfree, Hle. 
      split. { rewrite lookup_delete_ne in Hfree by lia. done. }
      split; [lia|]. intros x Hx.
      destruct (decide (x = d)) as [->|Hne]; [by eexists|].
      specialize (Hbelow x). rewrite Heq in Hbelow.
      rewrite lookup_delete_ne in Hbelow by lia. apply Hbelow. lia.
    + split; [done|]. split; [lia|]. intros x Hx. lia.
Qed.

(** [open] returns the lowest free descriptor number. *)
Lemma sys_open_lowest k path ino :
  paths k !! path = Some ino →
  descriptors k !! (sys_open k path).1 = None
  ∧ (first_fd k ≤ (sys_open k path).1)%Z
  ∧ ∀ x, (first_fd k ≤ x < (sys_open k path).1)%Z → is_Some (descriptors k !! x).
Proof.
  intros Hp. unfold sys_open. rewrite Hp. cbn [fst].
  by apply lowest_free_spec.
Qed.

Lemma sys_open_result k path :
  paths (sys_open k path).2 = paths k
  ∧ inodes (sys_open k path).2 = inodes k
  ∧ inotify_watches (sys_open k path).2 = inotify_watches k
  ∧ ((sys_open k path).1 = (-1)%Z
     ∨ ∃ ino, paths k !! path = Some ino
              ∧ descriptors (sys_open k path).2 !! (sys_open k path).1 = Some (ino, 0)).
Proof.
  unfold sys_open. destruct (paths k !! path) as [ino|];
    [|cbn; do 3 (split; [done|]); by left].
  cbn. do 3 (split; [done|]). right. exists ino. split; [done|]. apply lookup_insert_eq.
Qed.

Lemma init_watch_kernel st nm isf :
  paths (kernel (init_watch st nm isf).1) = paths (kernel st)
  ∧ inodes (kernel (init_watch st nm isf).1) = inodes (kernel st)
  ∧ descriptors (kernel (init_watch st nm isf).1) = descriptors (kernel st).
Proof.
  unfold init_watch. destruct isf; cbn; [done|].
  pose proof (sys_inotify_add_watch_result (kernel st) nm (Z.lor IN_CREATE IN_MOVED_TO))
    as (? & ? & ? & _).
  destruct (sys_inotify_add_watch (kernel st) nm (Z.lor IN_CREATE IN_MOVED_TO)). done.
Qed.

(** [wait_for_parent] in full: the record gets its parent link, at most
    one directory watch is linked at the tail, named by the record's name
    up to the last slash, and files and descriptors are left alone. *)
Lemma wait_for_parent_outcome st i w :
  registry st !! i = Some w →
  ∃ w' extra,
    registry (wait_for_parent st i) = <[i := w']> (registry st) ++ extra
    ∧ w' = set_parent w (parent w')
    ∧ trace (wait_for_parent st i) = trace st
    ∧ paths (kernel (wait_for_parent st i)) = paths (kernel st)
    ∧ inodes (kernel (wait_for_parent st i)) = inodes (kernel st)
    ∧ descriptors (kernel (wait_for_parent st i)) = descriptors (kernel st)
    ∧ (extra = []
       ∨ ∃ e wd, strrchr (name w) SLASH = Some e
                 ∧ extra = [fresh_watch (take e (name w)) false wd]).
Proof.
  intros Hi. unfold wait_for_parent. rewrite Hi.
  assert (w = set_parent w (parent w)) as Hw by (by destruct w).
  destruct (parent w) as [p|] eqn:Hp.
  { exists w, []. rewrite app_nil_r, list_insert_id by done. rewrite Hp. auto 10. }
  destruct (strrchr (name w) SLASH) as [e|] eqn:He.
  2: { exists w, []. rewrite app_nil_r, list_insert_id by done. rewrite Hp. auto 10. }
  destruct (find_watch_by_name st (take e (name w))) as [p|].
  { exists (set_parent w (Some p)), []. rewrite app_nil_r. auto 10. }
  destruct (init_watch_registry st (take e (name w)) false) as (wd & Hreg & Hidx & Htr & _).
  destruct (init_watch_kernel st (take e (name w)) false) as (Hk1 & Hk2 & Hk3).
  destruct (init_watch st (take e (name w)) false) as [st1 p]. cbn [fst snd] in *.
  exists (set_parent w (Some p)), [fresh_watch (take e (name w)) false wd].
  cbn [registry set_entry trace kernel]. rewrite Hreg.
  rewrite insert_app_l by (by eapply lookup_lt_Some).
  do 6 (split; [done|]). right. by exists e, wd.
Qed.

(** [reinit_file] in full.  The record keeps its name, kind and line
    buffer; the call is recorded first; at most one directory watch is
    linked at the tail.  The call ends in one of three ways: [open]
    failed, and the record has neither descriptor nor watch; the watch
    could not be added, and the record keeps the open descriptor without a
    watch; or both succeeded, and the descriptor is open on the file the
    name resolves to, positioned at its end, the watch is registered for
    that file, and the offset is the size of the file. *)
Lemma reinit_file_outcome st i w :
  registry st !! i = Some w →
  ∃ w' extra evs,
    registry (reinit_file st i) = <[i := w']> (registry st) ++ extra
    ∧ trace (reinit_file st i) = trace st ++ CallReinit i :: evs
    ∧ (extra = []
       ∨ ∃ e wd, strrchr (name w) SLASH = Some e
                 ∧ extra = [fresh_watch (take e (name w)) false wd])
    ∧ name w' = name w ∧ kind_is_file w' = kind_is_file w
    ∧ line_buffer_data w' = line_buffer_data w
    ∧ line_buffer_pos w' = line_buffer_pos w
    ∧ paths (kernel (reinit_file st i)) = paths (kernel st)
    ∧ inodes (kernel (reinit_file st i)) = inodes (kernel st)
    ∧ ((fd w' = (-1)%Z ∧ watch_desc w' = (-1)%Z ∧ file_offset w' = file_offset w
        ∧ evs = [LogOpenFailed (name w)])
       ∨ ((0 ≤ fd w')%Z ∧ (watch_desc w' < 0)%Z ∧ file_offset w' = file_offset w
          ∧ evs = [LogWatchFailed (name w)]
          ∧ is_Some (descriptors (kernel (reinit_file st i)) !! fd w')
          ∧ is_Some (paths (kernel st) !! name w))
       ∨ ((0 ≤ fd w')%Z ∧ (0 ≤ watch_desc w')%Z ∧ evs = []
          ∧ ∃ ino, paths (kernel st) !! name w = Some ino
              ∧ descriptors (kernel (reinit_file st i)) !! fd w'
                = Some (ino, default 0 (inode_size <$> inodes (kernel st) !! ino))
              ∧ inotify_watches (kernel (reinit_file st i)) !! watch_desc w'
                = Some (ino, Z.lor IN_MODIFY (Z.lor IN_MOVE_SELF IN_DELETE_SELF))
              ∧ file_offset w'
                = Z.of_nat (default 0 (inode_size <$> inodes (kernel st) !! ino)))).
Proof.
  intros Hi. unfold reinit_file. rewrite Hi.
  assert (i < length (registry st)) as Hlt by (by eapply lookup_lt_Some).
  set (k2 := if bool_decide (0 ≤ watch_desc w)%Z then _ else _).
  assert (paths k2 = paths (kernel st) ∧ inodes k2 = inodes (kernel st)) as [Hp2 Hi2].
  { subst k2. cbn [kernel log]. by repeat case_bool_decide. }
  set (w1 := set_watch_desc (set_fd w (-1)) (-1)).
  set (st1 := set_entry (set_kernel (log st [CallReinit i]) k2) i w1).
  assert (registry st1 !! i = Some w1) as Hi1
    by (subst st1; cbn [registry set_entry set_kernel log]; by apply list_lookup_insert_eq).
  destruct (wait_for_parent_outcome st1 i w1 Hi1)
    as (w2 & extra & Hreg2 & Hw2 & Htr2 & Hpaths & Hinodes & _ & Hextra).
  set (st2 := wait_for_parent st1 i) in *.
  assert (registry st2 = <[i := w2]> (registry st) ++ extra) as Hreg2'.
  { rewrite Hreg2. subst st1. cbn [registry set_entry set_kernel log].
    by rewrite list_insert_insert_eq. }
  assert (trace st2 = trace st ++ [CallReinit i]) as Htr2' by (by rewrite Htr2).
  assert (paths (kernel st2) = paths (kernel st)) as Hpaths' by (by rewrite Hpaths).
  assert (inodes (kernel st2) = inodes (kernel st)) as Hinodes' by (by rewrite Hinodes).
  assert (registry st2 !! i = Some w2) as Hi2'.
  { rewrite Hreg2', lookup_app_l by (by rewrite length_insert).
    by apply list_lookup_insert_eq. }
  assert (∀ w3, <[i := w3]> (registry st2) = <[i := w3]> (registry st) ++ extra) as Hins.
  { intros w3. rewrite Hreg2', insert_app_l by (by rewrite length_insert).
    by rewrite list_insert_insert_eq. }
  assert (name w2 = name w ∧ kind_is_file w2 = kind_is_file w
          ∧ line_buffer_data w2 = line_buffer_data w
          ∧ line_buffer_pos w2 = line_buffer_pos w
          ∧ fd w2 = (-1)%Z ∧ watch_desc w2 = (-1)%Z ∧ file_offset w2 = file_offset w)
    as (Hn2 & Hk2 & Hd2 & Hpos2 & Hfd2 & Hwd2 & Hoff2)
    by (rewrite Hw2; done).
  rewrite Hi2'.
  pose proof (sys_open_result (kernel st2) (name w2)) as (Hop1 & Hop2 & Hop3 & Hopen).
  destruct (sys_open (kernel st2) (name w2)) as [d k3]. cbn [fst snd] in *.
  case_bool_decide as Hd.
  { exists w2, extra, [LogOpenFailed (name w2)].
    cbn [registry trace log set_kernel kernel]. rewrite Hreg2', Htr2', <- app_assoc, Hn2.
    do 7 (split; [done|]). split; [congruence|]. split; [congruence|]. left. done. }
  destruct Hopen as [->|(ino & Hpath & Hdesc)]; [lia|].
  pose proof (sys_inotify_add_watch_result k3 (name w2)
                (Z.lor IN_MODIFY (Z.lor IN_MOVE_SELF IN_DELETE_SELF)))
    as (Haw1 & Haw2 & Haw3 & _ & Hadd).
  destruct (sys_inotify_add_watch k3 (name w2) _) as [wd k4]. cbn [fst snd] in *.
  case_bool_decide as Hwd.
  - destruct Hadd as [->|(ino' & Hpath' & Hwatch)]; [lia|].
    assert (ino' = ino) as -> by congruence.
    assert (descriptors k4 !! d = Some (ino, 0)) as Hdesc4 by (by rewrite Haw3).
    unfold sys_lseek0. rewrite Hdesc4.
    exists (set_file_offset (set_watch_desc (set_fd w2 d) wd)
              (Z.of_nat (default 0 (inode_size <$> inodes k4 !! ino)))), extra, [].
    cbn [registry trace log set_kernel set_entry kernel paths inodes descriptors
         inotify_watches set_descriptors set_file_offset set_watch_desc set_fd
         name kind_is_file line_buffer_data line_buffer_pos fd watch_desc file_offset].
    rewrite Hins, Htr2'.
    assert (inodes k4 = inodes (kernel st)) as Hin4 by congruence.
    rewrite Hin4.
    do 7 (split; [done|]). split; [congruence|]. split; [done|].
    right. right. split; [lia|]. split; [done|]. split; [done|].
    exists ino. split; [congruence|]. split; [apply lookup_insert_eq|]. done.
  - exists (set_watch_desc (set_fd w2 d) wd), extra, [LogWatchFailed (name w2)].
    cbn [registry trace log set_kernel set_entry kernel
         set_watch_desc set_fd name kind_is_file line_buffer_data line_buffer_pos
         fd watch_desc file_offset].
    rewrite Hins, Htr2', <- app_assoc, Hn2.
    do 7 (split; [done|]). split; [congruence|]. split; [congruence|].
    right. left. split; [lia|]. split; [lia|]. split; [done|]. split; [done|].
    split; [rewrite Haw3, Hdesc; by eexists|].
    exists ino. congruence.
Qed.

(** [reinit_file] never touches the line buffer: whatever its outcome,
    the record keeps its name, its kind, the content of its buffer and its
    cursor, so an unfinished line read before the call is still in the
    assembler after it.  The call is recorded once, every other record is
    left as it was, and at most one directory watch, named by the path up
    to the last slash, is linked at the tail. *)
Theorem reinit_file_keeps_buffer st i w :
  registry st !! i = Some w →
  ∃ w' extra,
    registry (reinit_file st i) = <[i := w']> (registry st) ++ extra
    ∧ name w' = name w ∧ kind_is_file w' = kind_is_file w
    ∧ line_buffer_data w' = line_buffer_data w
    ∧ line_buffer_pos w' = line_buffer_pos w
    ∧ reinit_calls (new_events st (reinit_file st i)) = [i]
    ∧ (extra = []
       ∨ ∃ e wd, strrchr (name w) SLASH = Some e
                 ∧ extra = [fresh_watch (take e (name w)) false wd]).
Proof.
  intros Hi.
  destruct (reinit_file_outcome st i w Hi)
    as (w' & extra & evs & Hreg & Htr & Hextra & Hn & Hk & Hd & Hp & _ & _ & Hout).
  exists w', extra. do 5 (split; [done|]). split; [|done].
  unfold new_events. rewrite Htr, drop_app_length.
  change (reinit_calls (CallReinit i :: evs)) with (i :: reinit_calls evs).
  by destruct Hout as [(_ & _ & _ & ->)|[(_ & _ & _ & -> & _)|(_ & _ & -> & _)]].
Qed.

Lemma reinit_file_keeps_buffer_witness :
  let st := started (ext_create (tmp_world 128) log_txt (Regular [])) in
  let w := FileWatch 2 (Some 1) log_txt 4 0 (replicate LINE_BUFFER_SIZE NUL) 0 true in
  registry st !! 0 = Some w
  ∧ reinit_calls (new_events st (reinit_file st 0)) = [0].
Proof.
  intros st w.
  assert (registry st !! 0 = Some w) as H0 by (vm_compute; reflexivity).
  split; [exact H0|].
  destruct (reinit_file_keeps_buffer st 0 w H0) as (w' & extra & _ & _ & _ & _ & _ & H & _).
  exact H.
Defined.

(** The three ways [reinit_file] can end, read off the record and the log:
    [open] failed (neither descriptor nor watch, "Could not open" logged);
    the watch could not be added (the descriptor stays open in the kernel,
    no watch, "Failed to add watch" logged); or success (descriptor open
    on the file the name resolves to and positioned at its end, watch
    registered for that file with the modify, move-self and delete-self
    mask, offset equal to the size of the file, nothing logged).  In
    particular a record that comes out with a watch has an open
    descriptor. *)
Theorem reinit_file_three_outcomes st i w :
  registry st !! i = Some w →
  ∃ w', registry (reinit_file st i) !! i = Some w'
    ∧ ((fd w' = (-1)%Z ∧ watch_desc w' = (-1)%Z ∧ file_offset w' = file_offset w
        ∧ new_events st (reinit_file st i) = [CallReinit i; LogOpenFailed (name w)])
       ∨ ((0 ≤ fd w')%Z ∧ (watch_desc w' < 0)%Z ∧ file_offset w' = file_offset w
          ∧ new_events st (reinit_file st i) = [CallReinit i; LogWatchFailed (name w)]
          ∧ is_Some (descriptors (kernel (reinit_file st i)) !! fd w'))
       ∨ ((0 ≤ fd w')%Z ∧ (0 ≤ watch_desc w')%Z
          ∧ new_events st (reinit_file st i) = [CallReinit i]
          ∧ ∃ ino, paths (kernel st) !! name w = Some ino
              ∧ descriptors (kernel (reinit_file st i)) !! fd w'
                = Some (ino, default 0 (inode_size <$> inodes (kernel st) !! ino))
              ∧ inotify_watches (kernel (reinit_file st i)) !! watch_desc w'
                = Some (ino, Z.lor IN_MODIFY (Z.lor IN_MOVE_SELF IN_DELETE_SELF))
              ∧ file_offset w'
                = Z.of_nat (default 0 (inode_size <$> inodes (kernel st) !! ino)))).
Proof.
  intros Hi.
  destruct (reinit_file_outcome st i w Hi)
    as (w' & extra & evs & Hreg & Htr & _ & _ & _ & _ & _ & _ & _ & Hout).
  exists w'. split.
  { rewrite Hreg, lookup_app_l by (rewrite length_insert; by eapply lookup_lt_Some).
    apply list_lookup_insert_eq. by eapply lookup_lt_Some. }
  unfold new_events. rewrite Htr, drop_app_length.
  destruct Hout as [(? & ? & ? & ->)|[(? & ? & ? & -> & ? & _)|(? & ? & -> & ?)]]; auto 10.
Qed.

Lemma reinit_file_three_outcomes_witness :
  let st := started (ext_create (tmp_world 128) log_txt (Regular (chars "hello"))) in
  let w := FileWatch 2 (Some 1) log_txt 4 5 (replicate LINE_BUFFER_SIZE NUL) 0 true in
  registry st !! 0 = Some w
  ∧ ∃ w', registry (reinit_file st 0) !! 0 = Some w'.
Proof.
  intros st w.
  assert (registry st !! 0 = Some w) as H0 by (vm_compute; reflexivity).
  split; [exact H0|].
  destruct (reinit_file_three_outcomes st 0 w H0) as (w' & H & _).
  exists w'. exact H.
Defined.

(** * Invariants of the event loop *)

Lemma sys_read_contract k d count bs :
  (sys_read k d count).1 = ReadData bs → length bs ≤ count.
Proof.
  unfold sys_read. destruct (descriptors k !! d) as [[ino pos]|]; [|done].
  destruct (inodes k !! ino) as [[content|]|]; try done.
  cbn. intros [= <-]. rewrite length_take. lia.
Qed.

Lemma set_buffer_fields w w' :
  name w' = name w → fd w' = fd w → watch_desc w' = watch_desc w →
  file_offset w' = file_offset w → parent w' = parent w →
  kind_is_file w' = kind_is_file w →
  w' = set_buffer w (line_buffer_data w') (line_buffer_pos w').
Proof. destruct w, w'. cbn. by intros -> -> -> -> -> ->. Qed.

Lemma set_buffer_twice w d1 p1 d2 p2 :
  set_buffer (set_buffer w d1 p1) d2 p2 = set_buffer w d2 p2.
Proof. done. Qed.

(** One round of reading changes nothing in the record but its buffer,
    whatever the state of the buffer and whatever [read] returned. *)
Lemma feed_only_buffer w ret :
  (feed w ret).1.1
  = set_buffer w (line_buffer_data (feed w ret).1.1) (line_buffer_pos (feed w ret).1.1).
Proof.
  unfold feed.
  pose proof (do_read_fields w ret) as (H1 & H2 & H3 & H4 & H5 & H6).
  destruct (do_read w ret) as [[w1 ok] evs1]. cbn [fst snd] in *.
  destruct ok; [|by apply set_buffer_fields].
  unfold handle_lines.
  destruct (handle_lines_loop LINE_BUFFER_SIZE (name w1) (line_buffer_data w1) 0)
    as [[data start] evs].
  pose proof (shift_residual_fields w1 data start) as (G1 & G2 & G3 & G4 & G5 & G6).
  pose proof (split_long_line_fields (shift_residual w1 data start))
    as (F1 & F2 & F3 & F4 & F5 & F6).
  destruct (split_long_line (shift_residual w1 data start)) as [w2 evs2]. cbn [fst snd] in *.
  apply set_buffer_fields; congruence.
Qed.

Lemma read_loop_only_buffer fuel : ∀ k w,
  (read_loop fuel k w).1.2
  = set_buffer w (line_buffer_data (read_loop fuel k w).1.2)
                 (line_buffer_pos (read_loop fuel k w).1.2).
Proof.
  induction fuel as [|fuel IH]; intros k w; [by destruct w|].
  cbn [read_loop].
  destruct (sys_read k (fd w) (read_count w)) as [ret k1].
  pose proof (feed_only_buffer w ret) as Hw1.
  destruct (feed w ret) as [[w1 ok] evs1]. cbn [fst snd] in *.
  destruct ok; [|done].
  specialize (IH k1 w1).
  destruct (read_loop fuel k1 w1) as [[k2 w2] evs2]. cbn [fst snd] in *.
  rewrite IH at 1. rewrite Hw1. done.
Qed.

(** The read loop keeps the buffer well formed, on any descriptor in any
    kernel state. *)
Lemma read_loop_buf_ok fuel : ∀ k w,
  buf_ok w → buf_ok (read_loop fuel k w).1.2.
Proof.
  induction fuel as [|fuel IH]; intros k w Hok; [done|].
  cbn [read_loop].
  pose proof (sys_read_contract k (fd w) (read_count w)) as Hcontract.
  destruct (sys_read k (fd w) (read_count w)) as [ret k1]. cbn [fst] in Hcontract.
  pose proof (feed_bounds w ret Hok Hcontract) as (Hok1 & _).
  destruct (feed w ret) as [[w1 ok] evs1]. cbn [fst snd] in *.
  destruct ok; [|done].
  specialize (IH k1 w1 Hok1).
  by destruct (read_loop fuel k1 w1) as [[k2 w2] evs2].
Qed.

(** [read_watch] rewrites its own record only, and there only the buffer
    and the offset. *)
Lemma read_watch_registry st i w :
  registry st !! i = Some w →
  ∃ data pos off,
    registry (read_watch st i)
    = <[i := set_file_offset (set_buffer w data pos) off]> (registry st)
    ∧ (buf_ok w → buf_ok (set_buffer w data pos)).
Proof.
  intros Hi. unfold read_watch. rewrite Hi.
  destruct (read_watch_rewind (kernel st) w) as [k1 evs0].
  pose proof (read_loop_only_buffer (S (bytes_left k1 (fd w))) k1 w) as Hw2.
  pose proof (read_loop_buf_ok (S (bytes_left k1 (fd w))) k1 w) as Hok2.
  destruct (read_loop (S (bytes_left k1 (fd w))) k1 w) as [[k2 w2] evs]. cbn [fst snd] in *.
  destruct (sys_lseek0 k2 (fd w2) SEEK_CUR) as [off k3].
  exists (line_buffer_data w2), (line_buffer_pos w2), off.
  cbn [registry log set_entry set_kernel]. rewrite <- Hw2. done.
Qed.

Lemma file_deleted_registry st i w :
  registry st !! i = Some w →
  registry (file_deleted st i)
  = <[i := FileWatch (-1) (parent w) (name w) (-1) 0 (line_buffer_data w) 0
                     (kind_is_file w)]> (registry st).
Proof. intros Hi. unfold file_deleted. by rewrite Hi. Qed.

Lemma identity_insert (reg : list file_watch) i w w' :
  reg !! i = Some w → identity w' = identity w →
  identity <$> <[i := w']> reg = identity <$> reg.
Proof.
  intros Hi Hid. rewrite list_fmap_insert, Hid.
  apply list_insert_id. by rewrite list_lookup_fmap, Hi.
Qed.

Section record_invariant.
(** A property of records that the three ways of rewriting a record keep:
    a new buffer and offset, the reset of [file_deleted], and the
    outcomes of [reinit_file]; and that fresh records have. *)
Variable P : file_watch → Prop.
Hypothesis P_buffer : ∀ w data pos off,
  P w → P (set_file_offset (set_buffer w data pos) off).
Hypothesis P_deleted : ∀ w,
  P w → P (FileWatch (-1) (parent w) (name w) (-1) 0 (line_buffer_data w) 0
                     (kind_is_file w)).
Hypothesis P_reinit : ∀ w w',
  P w → kind_is_file w' = kind_is_file w →
  ((watch_desc w' < 0)%Z ∨ (0 ≤ fd w')%Z) → P w'.
Hypothesis P_fresh : ∀ nm isf wd, (isf = true → wd = (-1)%Z) → P (fresh_watch nm isf wd).

Let Q (w : file_watch) : Prop := buf_ok w ∧ P w.

Lemma read_watch_keeps st i :
  Forall Q (registry st) → Forall Q (registry (read_watch st i)).
Proof.
  intros Hall. destruct (registry st !! i) as [w|] eqn:Hi.
  2: { unfold read_watch. by rewrite Hi. }
  destruct (read_watch_registry st i w Hi) as (data & pos & off & -> & Hok).
  apply Forall_insert; [done|].
  destruct (Forall_lookup_1 _ _ _ _ Hall Hi) as [Hbuf HP].
  split; [by apply Hok|by apply P_buffer].
Qed.

Lemma file_deleted_keeps st i :
  Forall Q (registry st) → Forall Q (registry (file_deleted st i)).
Proof.
  intros Hall. destruct (registry st !! i) as [w|] eqn:Hi.
  2: { unfold file_deleted. by rewrite Hi. }
  rewrite (file_deleted_registry st i w Hi).
  apply Forall_insert; [done|].
  destruct (Forall_lookup_1 _ _ _ _ Hall Hi) as [[Hlen Hpos] HP].
  split; [|by apply P_deleted].
  split; [done|]. cbn. pose proof LINE_BUFFER_SIZE_val. lia.
Qed.

Lemma reinit_file_keeps st i :
  Forall Q (registry st) → Forall Q (registry (reinit_file st i)).
Proof.
  intros Hall. destruct (registry st !! i) as [w|] eqn:Hi.
  2: { unfold reinit_file. by rewrite Hi. }
  destruct (reinit_file_outcome st i w Hi)
    as (w' & extra & evs & -> & _ & Hextra & _ & Hk & Hd & Hp & _ & _ & Hout).
  destruct (Forall_lookup_1 _ _ _ _ Hall Hi) as [[Hlen Hpos] HP].
  apply Forall_app. split.
  - apply Forall_insert; [done|]. split.
    + split; congruence.
    + apply (P_reinit w); [done|done|].
      destruct Hout as [(_ & -> & _)|[(? & _)|(? & _)]]; [left; lia|by right|by right].
  - destruct Hextra as [->|(e & wd & _ & ->)]; [done|].
    apply Forall_singleton. split; [apply fresh_watch_buf_ok|by apply P_fresh].
Qed.

Lemma file_appeared_loop_keeps dir child fuel : ∀ st j,
  Forall Q (registry st) → Forall Q (registry (file_appeared_loop fuel st dir child j)).
Proof.
  induction fuel as [|fuel IH]; intros st j Hall; [done|].
  cbn [file_appeared_loop]. destruct (registry st !! j) as [file|]; [|done].
  apply IH. destruct (appeared_match dir (name file) child); [|done].
  by apply reinit_file_keeps.
Qed.

Lemma handle_event_keeps st i child mask :
  Forall Q (registry st) → Forall Q (registry (handle_event st i child mask)).
Proof.
  intros Hall. unfold handle_event.
  set (s1 := if has_bits mask IN_MODIFY then _ else _).
  assert (Forall Q (registry s1.1)) as H1.
  { subst s1. destruct (has_bits mask IN_MODIFY); [by apply read_watch_keeps|done]. }
  destruct s1 as [st1 mask1]. cbn [fst] in H1.
  set (s2 := if has_bits mask1 IN_CREATE || has_bits mask1 IN_MOVED_TO then _ else _).
  assert (Forall Q (registry s2.1)) as H2.
  { subst s2. destruct (has_bits mask1 IN_CREATE || has_bits mask1 IN_MOVED_TO); [|done].
    cbn [fst]. unfold file_appeared. destruct (registry st1 !! i); [|done].
    by apply file_appeared_loop_keeps. }
  destruct s2 as [st2 mask2]. cbn [fst] in H2.
  set (s3 := if has_bits mask2 IN_DELETE_SELF || has_bits mask2 IN_MOVE_SELF then _ else _).
  assert (Forall Q (registry s3.1)) as H3.
  { subst s3. destruct (has_bits mask2 IN_DELETE_SELF || has_bits mask2 IN_MOVE_SELF);
      [by apply file_deleted_keeps|done]. }
  destruct s3 as [st3 mask3]. cbn [fst] in H3.
  by destruct (Z.ldiff mask3 IN_IGNORED =? 0)%Z.
Qed.

Lemma read_events_keeps batch : ∀ st,
  Forall Q (registry st) → Forall Q (registry (read_events st batch)).
Proof.
  unfold read_events. induction batch as [|ev batch IH]; intros st Hall; [done|].
  cbn [foldl]. apply IH. unfold dispatch.
  destruct (find_watch st (ev_wd ev)); [by apply handle_event_keeps|done].
Qed.

Lemma event_loop_keeps batches : ∀ st,
  Forall Q (registry st) → Forall Q (registry (event_loop st batches)).
Proof.
  unfold event_loop. induction batches as [|b batches IH]; intros st Hall; [done|].
  cbn [foldl]. apply IH. by apply read_events_keeps.
Qed.

Lemma run_loop_keeps steps : ∀ st,
  Forall Q (registry st) → Forall Q (registry (run_loop st steps)).
Proof.
  unfold run_loop. induction steps as [|s steps IH]; intros st Hall; [done|].
  cbn [foldl]. apply IH. destruct s as [ev|f]; cbn [run_step]; [|done].
  unfold dispatch.
  destruct (find_watch st (ev_wd ev)); [by apply handle_event_keeps|done].
Qed.

Lemma init_files_keeps names : ∀ st,
  Forall Q (registry st) → Forall Q (registry (init_files st names).1).
Proof.
  induction names as [|nm names IH]; intros st Hall; [done|].
  cbn [init_files]. unfold init_file.
  destruct (init_watch_registry st nm true) as (wd & Hreg & _ & _ & Hwd).
  destruct (init_watch st nm true) as [st1 idx]. cbn [fst] in *.
  apply IH. apply reinit_file_keeps. rewrite Hreg.
  apply Forall_app. split; [done|]. apply Forall_singleton.
  split; [apply fresh_watch_buf_ok|]. apply P_fresh. intros _. by apply Hwd.
Qed.
End record_invariant.

(** The runs of [run_loop] include those of [event_loop]: a sequence of
    batches is the sequence of its events, with no change from outside in
    between. *)
Lemma read_events_run_loop batch st :
  read_events st batch = run_loop st (Handles <$> batch).
Proof.
  unfold read_events, run_loop. revert st.
  induction batch as [|ev batch IH]; intros st; [done|]. cbn [foldl fmap list_fmap]. apply IH.
Qed.

Lemma event_loop_run_loop batches : ∀ st,
  event_loop st batches = run_loop st (Handles <$> concat batches).
Proof.
  unfold event_loop. induction batches as [|b batches IH]; intros st; [done|].
  cbn [foldl concat]. rewrite IH, read_events_run_loop, fmap_app.
  unfold run_loop. by rewrite foldl_app.
Qed.

(** Buffer safety of the whole program.  Start the program on any
    arguments in any file system, then let it handle any events, one at a
    time, while other processes change what the kernel holds in any way
    between any two events: in every state reached, every record has a
    line buffer of [LINE_BUFFER_SIZE] bytes and a cursor below
    [LINE_BUFFER_SIZE - 1], so [do_read] always has room for at least one
    byte and the terminator. *)
Theorem reachable_buffers_ok k args steps :
  Forall buf_ok (registry (run_loop (init_files (State [] k []) args).1 steps)).
Proof.
  pose proof (run_loop_keeps (λ _, True)) as Hloop.
  pose proof (init_files_keeps (λ _, True)) as Hinit.
  eapply Forall_impl.
  - apply Hloop; [done..|]. apply Hinit; [done..|]. constructor.
  - by intros w [? _].
Qed.

(** A watch is never left without a descriptor.  Start the program on any
    arguments in any file system, then let it handle any events, one at a
    time, while other processes change what the kernel holds in any way
    between any two events: in every state reached, every file record
    that has a watch descriptor also has a file descriptor.  (The converse
    fails: a descriptor can be left without a watch.) *)
Theorem reachable_watch_has_descriptor k args steps :
  Forall watch_has_descriptor
         (registry (run_loop (init_files (State [] k []) args).1 steps)).
Proof.
  pose proof (run_loop_keeps watch_has_descriptor) as Hloop.
  pose proof (init_files_keeps watch_has_descriptor) as Hinit.
  assert (∀ w data pos off, watch_has_descriptor w →
            watch_has_descriptor (set_file_offset (set_buffer w data pos) off)) as H1
    by (intros w ? ? ? Hw; exact Hw).
  assert (∀ w, watch_has_descriptor w →
            watch_has_descriptor (FileWatch (-1) (parent w) (name w) (-1) 0
                                            (line_buffer_data w) 0 (kind_is_file w))) as H2
    by (intros w _ _ Hwd; cbn in Hwd; lia).
  assert (∀ w w', watch_has_descriptor w → kind_is_file w' = kind_is_file w →
            ((watch_desc w' < 0)%Z ∨ (0 ≤ fd w')%Z) → watch_has_descriptor w') as H3
    by (intros w w' _ _ [?|?] _ ?; lia).
  assert (∀ nm isf wd, (isf = true → wd = (-1)%Z) →
            watch_has_descriptor (fresh_watch nm isf wd)) as H4.
  { intros nm isf wd Hwd Hk Hpos. cbn in Hk, Hpos. specialize (Hwd Hk). lia. }
  eapply Forall_impl.
  - apply (Hloop H1 H2 H3 H4). apply (Hinit H3 H4). constructor.
  - by intros w [_ ?].
Qed.

(** ** The registry only grows *)

(** The registry of [st'] is that of [st] with the same names and kinds at
    the same places, and directory watches added at the tail. *)
Lemma identity_prefix_refl (reg : list file_watch) :
  ∃ extra, identity <$> reg = (identity <$> reg) ++ extra
           ∧ Forall (λ x : list ascii * bool, x.2 = false) extra.
Proof. exists []. by rewrite app_nil_r. Qed.

Lemma reinit_file_identities st i :
  ∃ extra, identity <$> registry (reinit_file st i) = (identity <$> registry st) ++ extra
           ∧ Forall (λ x : list ascii * bool, x.2 = false) extra.
Proof.
  destruct (registry st !! i) as [w|] eqn:Hi.
  2: { unfold reinit_file. rewrite Hi. apply identity_prefix_refl. }
  destruct (reinit_file_outcome st i w Hi)
    as (w' & extra & evs & -> & _ & Hextra & Hn & Hk & _).
  exists (identity <$> extra). rewrite fmap_app.
  rewrite (identity_insert _ i w w' Hi) by (unfold identity; congruence).
  split; [done|].
  destruct Hextra as [->|(e & wd & _ & ->)]; [done|]. by apply Forall_singleton.
Qed.

Lemma file_appeared_loop_identities dir child fuel : ∀ st j,
  ∃ extra, identity <$> registry (file_appeared_loop fuel st dir child j)
           = (identity <$> registry st) ++ extra
           ∧ Forall (λ x : list ascii * bool, x.2 = false) extra.
Proof.
  induction fuel as [|fuel IH]; intros st j; [apply identity_prefix_refl|].
  cbn [file_appeared_loop].
  destruct (registry st !! j) as [file|]; [|apply identity_prefix_refl].
  destruct (appeared_match dir (name file) child); [|apply IH].
  destruct (reinit_file_identities st j) as (ex1 & H1 & Hf1).
  destruct (IH (reinit_file st j) (S j)) as (ex2 & H2 & Hf2).
  exists (ex1 ++ ex2). rewrite H2, H1, <- app_assoc. split; [done|].
  by apply Forall_app.
Qed.

Lemma handle_event_identities st i child mask :
  ∃ extra, identity <$> registry (handle_event st i child mask)
           = (identity <$> registry st) ++ extra
           ∧ Forall (λ x : list ascii * bool, x.2 = false) extra.
Proof.
  unfold handle_event.
  set (s1 := if has_bits mask IN_MODIFY then _ else _).
  assert (identity <$> registry s1.1 = identity <$> registry st) as H1.
  { subst s1. destruct (has_bits mask IN_MODIFY); [|done]. cbn [fst].
    destruct (registry st !! i) as [w|] eqn:Hi.
    - destruct (read_watch_registry st i w Hi) as (d & p & off & -> & _).
      by apply (identity_insert _ i w).
    - unfold read_watch. by rewrite Hi. }
  destruct s1 as [st1 mask1]. cbn [fst] in H1.
  set (s2 := if has_bits mask1 IN_CREATE || has_bits mask1 IN_MOVED_TO then _ else _).
  assert (∃ extra, identity <$> registry s2.1 = (identity <$> registry st) ++ extra
                   ∧ Forall (λ x : list ascii * bool, x.2 = false) extra)
    as (extra & H2 & Hf).
  { subst s2. rewrite <- H1.
    destruct (has_bits mask1 IN_CREATE || has_bits mask1 IN_MOVED_TO);
      [|apply identity_prefix_refl].
    cbn [fst]. unfold file_appeared.
    destruct (registry st1 !! i); [|apply identity_prefix_refl].
    apply file_appeared_loop_identities. }
  destruct s2 as [st2 mask2]. cbn [fst] in H2.
  set (s3 := if has_bits mask2 IN_DELETE_SELF || has_bits mask2 IN_MOVE_SELF then _ else _).
  assert (identity <$> registry s3.1 = identity <$> registry st2) as H3.
  { subst s3. destruct (has_bits mask2 IN_DELETE_SELF || has_bits mask2 IN_MOVE_SELF); [|done].
    cbn [fst]. destruct (registry st2 !! i) as [w|] eqn:Hi.
    - rewrite (file_deleted_registry st2 i w Hi). by apply (identity_insert _ i w).
    - unfold file_deleted. by rewrite Hi. }
  destruct s3 as [st3 mask3]. cbn [fst] in H3.
  exists extra. split; [|done]. rewrite <- H2, <- H3.
  by destruct (Z.ldiff mask3 IN_IGNORED =? 0)%Z.
Qed.

Lemma read_events_identities batch : ∀ st,
  ∃ extra, identity <$> registry (read_events st batch)
           = (identity <$> registry st) ++ extra
           ∧ Forall (λ x : list ascii * bool, x.2 = false) extra.
Proof.
  unfold read_events. induction batch as [|ev batch IH]; intros st;
    [apply identity_prefix_refl|].
  cbn [foldl].
  assert (∃ extra, identity <$> registry (dispatch st ev)
                   = (identity <$> registry st) ++ extra
                   ∧ Forall (λ x : list ascii * bool, x.2 = false) extra)
    as (ex1 & H1 & Hf1).
  { unfold dispatch. destruct (find_watch st (ev_wd ev));
      [apply handle_event_identities|apply identity_prefix_refl]. }
  destruct (IH (dispatch st ev)) as (ex2 & H2 & Hf2).
  exists (ex1 ++ ex2). rewrite H2, H1, <- app_assoc. split; [done|]. by apply Forall_app.
Qed.

(** No record is ever unlinked, renamed or turned into another kind, and
    the event loop never adds a file record: after any batches of events,
    the registry holds the records it held before, with the same names and
    kinds at the same places, followed by directory watches only. *)
Theorem registry_only_grows batches : ∀ st,
  ∃ extra,
    identity <$> registry (event_loop st batches) = (identity <$> registry st) ++ extra
    ∧ Forall (λ x : list ascii * bool, x.2 = false) extra.
Proof.
  unfold event_loop. induction batches as [|b batches IH]; intros st;
    [apply identity_prefix_refl|].
  cbn [foldl].
  destruct (read_events_identities b st) as (ex1 & H1 & Hf1).
  destruct (IH (read_events st b)) as (ex2 & H2 & Hf2).
  exists (ex1 ++ ex2). rewrite H2, H1, <- app_assoc. split; [done|]. by apply Forall_app.
Qed.

Lemma filter_files_dirs (extra : list (list ascii * bool)) :
  Forall (λ x, x.2 = false) extra → filter (λ x, x.2 = true) extra = [].
Proof.
  induction 1 as [|x l Hx _ IH]; [done|].
  rewrite filter_cons_False by (rewrite Hx; discriminate). done.
Qed.

Lemma init_files_identities names : ∀ st,
  filter (λ x, x.2 = true) (identity <$> registry (init_files st names).1)
  = filter (λ x, x.2 = true) (identity <$> registry st) ++ ((λ nm, (nm, true)) <$> names).
Proof.
  induction names as [|nm names IH]; intros st; [by rewrite app_nil_r|].
  cbn [init_files]. unfold init_file.
  destruct (init_watch_registry st nm true) as (wd & Hreg & _).
  destruct (init_watch st nm true) as [st1 idx]. cbn [fst] in *.
  rewrite IH. destruct (reinit_file_identities st1 idx) as (extra & -> & Hextra).
  rewrite Hreg, fmap_app, !filter_app, (filter_files_dirs _ Hextra), app_nil_r.
  rewrite <- app_assoc. f_equal.
Qed.

(** One file record per argument: when [main] enters the event loop, the
    file records of the registry are, in order, one for each path of the
    command line, duplicates included; every other record is a directory
    watch. *)
Theorem init_files_one_record_per_argument k args :
  filter (λ x, x.2 = true) (identity <$> registry (init_files (State [] k []) args).1)
  = (λ nm, (nm, true)) <$> args.
Proof. by rewrite init_files_identities. Qed.

(** ** Events that carry none of the handled kinds *)

Lemma has_bits_none mask bits all :
  Z.land mask all = 0%Z → Z.land bits all = bits → has_bits mask bits = false.
Proof.
  intros Hmask Hbits. unfold has_bits.
  assert (Z.land mask bits = 0%Z) as ->; [|done].
  rewrite <- Hbits, Z.land_assoc, (Z.land_comm mask bits), <- Z.land_assoc, Hmask.
  apply Z.land_0_r.
Qed.

(** An event without modify, create, moved-to, delete-self or move-self
    bit changes no record and makes no system call: when only [IN_IGNORED]
    is set (or nothing at all) the state is left as it is, and any other
    bit is reported once as unhandled, [IN_IGNORED] masked out. *)
Theorem handle_event_other_bits st i child mask :
  Z.land mask (Z.lor IN_MODIFY (Z.lor IN_CREATE (Z.lor IN_MOVED_TO
                 (Z.lor IN_DELETE_SELF IN_MOVE_SELF)))) = 0%Z →
  handle_event st i child mask
  = if (Z.ldiff mask IN_IGNORED =? 0)%Z then st
    else log st [LogUnhandled (Z.ldiff mask IN_IGNORED)
                              (default [] (name <$> registry st !! i))].
Proof.
  intros Hmask. unfold handle_event.
  rewrite (has_bits_none mask IN_MODIFY _ Hmask) by reflexivity.
  rewrite (has_bits_none mask IN_CREATE _ Hmask) by reflexivity.
  rewrite (has_bits_none mask IN_MOVED_TO _ Hmask) by reflexivity.
  cbn [orb].
  rewrite (has_bits_none mask IN_DELETE_SELF _ Hmask) by reflexivity.
  rewrite (has_bits_none mask IN_MOVE_SELF _ Hmask) by reflexivity.
  reflexivity.
Qed.

Lemma handle_event_other_bits_witness :
  let st := started (tmp_world 128) in
  handle_event st 1 [] IN_IGNORED = st
  ∧ handle_event st 1 [] 0x4 = log st [LogUnhandled 0x4 (chars "/tmp")].
Proof.
  intros st. split.
  - apply (handle_event_other_bits st 1 [] IN_IGNORED). reflexivity.
  - rewrite (handle_event_other_bits st 1 [] 0x4) by reflexivity. reflexivity.
Defined.

(** ** No byte is lost *)

Lemma reference_assembler_rebuild nm s : ∀ cur evs r,
  reference_assembler nm cur s = (evs, r) → rebuild evs ++ r = cur ++ s.
Proof.
  induction s as [|c s IH]; intros cur evs r; cbn [reference_assembler].
  - intros [= <- <-]. by rewrite app_nil_r.
  - destruct (Ascii.eqb_spec c NL) as [->|_].
    + destruct (reference_assembler nm [] s) as [evs' r'] eqn:Hs. intros [= <- <-].
      apply IH in Hs. cbn [rebuild]. rewrite <- app_assoc. cbn [app]. by rewrite Hs.
    + case_bool_decide.
      * destruct (reference_assembler nm [] s) as [evs' r'] eqn:Hs. intros [= <- <-].
        apply IH in Hs. cbn [rebuild]. rewrite <- !app_assoc. cbn [app]. by rewrite Hs.
      * intros Hs. apply IH in Hs. rewrite Hs, <- app_assoc. done.
Qed.

(** The stream can be rebuilt from what the assembler did with it: for
    NUL-free bytes read in any chunk sizes, the lines handed over at a
    newline, each followed by a newline, and the lines split off by force,
    as they are, concatenated in order and followed by the residual left in
    the buffer, are exactly the bytes consumed.  Nothing is dropped,
    repeated or reordered, forced splits included. *)
Theorem read_stream_rebuilds nm isf wd s ns w' evs rest :
  nul_free s →
  read_stream (fresh_watch nm isf wd) s ns = (w', evs, rest) →
  (rebuild evs ++ take (line_buffer_pos w') (line_buffer_data w')) ++ rest = s.
Proof.
  intros Hs Hrun.
  destruct (read_stream_reference ns s (fresh_watch nm isf wd) [])
    as (w2 & evs2 & rest2 & consumed & r' & Hrun' & Hcut & Href & Hw' & _);
    [apply fresh_watch_holds|unfold nul_free; apply not_elem_of_nil
    |unfold nl_free; apply not_elem_of_nil|done|].
  rewrite Hrun in Hrun'. injection Hrun' as <- <- <-.
  apply reference_assembler_rebuild in Href. cbn [app] in Href.
  destruct Hw' as (_ & -> & ->). by rewrite Href.
Qed.

Lemma read_stream_rebuilds_witness :
  let s := chars "ab" ++ [NL] ++ chars "cd" ++ [NL] ++ chars "e" in
  let run := read_stream (fresh_watch (chars "f") true (-1)) s [3; 2] in
  nul_free s
  ∧ (rebuild run.1.2 ++ take (line_buffer_pos run.1.1) (line_buffer_data run.1.1)) ++ run.2 = s.
Proof.
  intros s run.
  assert (nul_free s) as Hs by (apply (bool_decide_unpack _); vm_compute; exact I).
  split; [exact Hs|].
  apply (read_stream_rebuilds (chars "f") true (-1) s [3; 2] _ _ _ Hs).
  subst run. by destruct (read_stream _ _ _) as [[? ?] ?].
Defined.

(** ** Reading what was appended *)

(** Tailing: a modify event on a record whose file has not shrunk below
    its offset.  [read_watch] reads the file from the descriptor's position
    to its end; when these bytes hold no NUL, the events recorded are
    exactly those of the reference assembler started with the record's
    residual: the lines the new bytes complete are handed over in order,
    the unfinished rest is the new residual, the offset becomes the size of
    the file, and no truncation is logged. *)
Theorem read_watch_appended st i w r ino pos content :
  registry st !! i = Some w →
  holds_residual w r → nul_free r → nl_free r →
  descriptors (kernel st) !! fd w = Some (ino, pos) →
  inodes (kernel st) !! ino = Some (Regular content) →
  (file_offset w ≤ Z.of_nat (length content))%Z →
  pos ≤ length content →
  nul_free (drop pos content) →
  let st' := read_watch st i in
  let out := reference_assembler (name w) r (drop pos content) in
  new_events st st' = out.1
  ∧ (∃ w', registry st' = <[i := w']> (registry st)
       ∧ holds_residual w' out.2
       ∧ file_offset w' = Z.of_nat (length content)
       ∧ fd w' = fd w ∧ watch_desc w' = watch_desc w
       ∧ name w' = name w ∧ parent w' = parent w)
  ∧ descriptors (kernel st') = <[fd w := (ino, length content)]> (descriptors (kernel st)).
Proof.
  intros Hi Hres Hr0 Hr1 Hd Hino Hsize Hpos Hnul st' out.
  pose proof Hres as (Hok & _).
  assert (read_watch_rewind (kernel st) w = (kernel st, [])) as Hrew.
  { unfold read_watch_rewind, sys_fstat_size. rewrite Hd, Hino.
    cbn [fmap option_fmap option_map inode_size].
    by rewrite bool_decide_eq_false_2 by lia. }
  assert (length content - pos < S (bytes_left (kernel st) (fd w))) as Hfuel.
  { unfold bytes_left. rewrite Hd, Hino. simpl. lia. }
  destruct (read_loop_drains _ (kernel st) w ino pos content Hok Hd Hino Hfuel)
    as (w2 & evs & Hrun & Hok2 & Hn2 & Hfd2 & Hwd2 & Hoff2 & Hpar2 & _).
  pose proof (read_loop_stream _ (kernel st) w ino pos content Hok Hd Hino Hfuel) as Hstream.
  rewrite Hrun in Hstream. cbn [fst snd] in Hstream.
  destruct (read_stream_reference
              (replicate (S (bytes_left (kernel st) (fd w))) LINE_BUFFER_SIZE)
              _ w r Hres Hr0 Hr1 Hnul)
    as (w2' & evs' & rest & consumed & r' & Hrun' & Hcut & Href & Hw2 & _).
  rewrite Hstream in Hrun'. injection Hrun' as <- <- <-.
  rewrite app_nil_r in Hcut. subst consumed.
  assert (out = (evs, r')) as Hout by (subst out; exact Href).
  assert (st' = log (set_entry
                       (set_kernel st (set_descriptors (kernel st)
                          (<[fd w := (ino, length content)]> (descriptors (kernel st)))))
                       i (set_file_offset w2 (Z.of_nat (length content))))
                    ([] ++ evs)) as Hst'.
  { subst st'. unfold read_watch. rewrite Hi, Hrew, Hrun.
    unfold sys_lseek0, set_descriptors.
    cbn [descriptors inodes first_fd paths inotify_watches next_wd max_user_watches].
    rewrite Hfd2, lookup_insert_eq, Nat.max_r by lia. by rewrite !insert_insert_eq. }
  rewrite Hst', Hout. cbn [fst snd].
  split.
  { unfold new_events. cbn [trace log set_entry set_kernel app].
    by rewrite drop_app_length. }
  split; [|done].
  exists (set_file_offset w2 (Z.of_nat (length content))).
  cbn [registry kernel log set_entry set_kernel].
  split; [done|]. split; [exact Hw2|]. done.
Qed.

(** A run that satisfies the hypotheses: the program follows an empty
    file, to which a line and a half are appended. *)
Lemma read_watch_appended_witness :
  let st := meanwhile (started (ext_create (tmp_world 128) log_txt (Regular [])))
                      (λ k, ext_append k log_txt (chars "hello" ++ [NL] ++ chars "wor")) in
  let w := FileWatch 2 (Some 1) log_txt 4 0 (replicate LINE_BUFFER_SIZE NUL) 0 true in
  registry st !! 0 = Some w
  ∧ descriptors (kernel st) !! fd w = Some (1, 0)
  ∧ inodes (kernel st) !! 1 = Some (Regular (chars "hello" ++ [NL] ++ chars "wor"))
  ∧ new_events st (read_watch st 0) = [HandleLine log_txt (chars "hello")].
Proof.
  intros st w.
  assert (registry st !! 0 = Some w) as H0 by (vm_compute; reflexivity).
  assert (holds_residual w []) as H1 by apply (fresh_watch_holds log_txt true 2).
  assert (nul_free [] ∧ nl_free []) as [H2 H3]
    by (split; [unfold nul_free|unfold nl_free]; apply not_elem_of_nil).
  assert (descriptors (kernel st) !! fd w = Some (1, 0)) as H4 by (vm_compute; reflexivity).
  assert (inodes (kernel st) !! 1 = Some (Regular (chars "hello" ++ [NL] ++ chars "wor")))
    as H5 by (vm_compute; reflexivity).
  assert (file_offset w ≤ Z.of_nat (length (chars "hello" ++ [NL] ++ chars "wor")))%Z as H6
    by (vm_compute; discriminate).
  assert (0 ≤ length (chars "hello" ++ [NL] ++ chars "wor")) as H7 by lia.
  assert (nul_free (drop 0 (chars "hello" ++ [NL] ++ chars "wor"))) as H8
    by (apply (bool_decide_unpack _); vm_compute; exact I).
  destruct (read_watch_appended st 0 w [] 1 0 _ H0 H1 H2 H3 H4 H5 H6 H7 H8) as (Hev & _).
  split; [exact H0|]. split; [exact H4|]. split; [exact H5|].
  rewrite Hev. vm_compute. reflexivity.
Defined.

(** ** Looking records up *)

(** After [init_watch] a record of that name can be found:
    [find_watch_by_name] returns the first record of the name, which is the
    new one exactly when there was none before. *)
Theorem find_after_init_watch st nm isf :
  ∃ p w,
    find_watch_by_name (init_watch st nm isf).1 nm = Some p
    ∧ registry (init_watch st nm isf).1 !! p = Some w
    ∧ name w = nm
    ∧ p ≤ (init_watch st nm isf).2
    ∧ (find_watch_by_name st nm = None ↔ p = (init_watch st nm isf).2).
Proof.
  destruct (init_watch_registry st nm isf) as (wd & Hreg & Hidx & _).
  destruct (init_watch st nm isf) as [st1 idx]. cbn [fst snd] in *. subst idx.
  destruct (find_watch_by_name st nm) as [p|] eqn:Hfind.
  - apply find_watch_by_name_Some in Hfind as (w & Hp & Hw & Hfirst).
    assert (p < length (registry st)) as Hlt by (by eapply lookup_lt_Some).
    exists p, w. split.
    { apply find_watch_by_name_Some. exists w. rewrite Hreg.
      split; [by rewrite lookup_app_l|]. split; [done|].
      intros j y Hj Hjp. rewrite lookup_app_l in Hj by lia. by eapply Hfirst. }
    split; [by rewrite Hreg, lookup_app_l|]. split; [done|]. split; [lia|].
    split; [done|lia].
  - pose proof (proj1 (find_watch_by_name_None st nm) Hfind) as Hnone.
    exists (length (registry st)), (fresh_watch nm isf wd).
    assert (registry st1 !! length (registry st) = Some (fresh_watch nm isf wd)) as Hnew.
    { rewrite Hreg, lookup_app_r by lia. by rewrite Nat.sub_diag. }
    split.
    { apply find_watch_by_name_Some. exists (fresh_watch nm isf wd).
      split; [done|]. split; [done|].
      intros j y Hj Hjp. rewrite Hreg, lookup_app_l in Hj by lia.
      apply Hnone. by eapply list_elem_of_lookup_2. }
    done.
Qed.

(** ** What reading never does *)

Lemma same_subscriptions_refl k : same_subscriptions k k.
Proof. done. Qed.

Lemma same_subscriptions_trans k1 k2 k3 :
  same_subscriptions k1 k2 → same_subscriptions k2 k3 → same_subscriptions k1 k3.
Proof. intros (? & ? & ? & ?) (? & ? & ? & ?). repeat split; congruence. Qed.

Lemma sys_read_subscriptions k d count : same_subscriptions k (sys_read k d count).2.
Proof.
  unfold sys_read. destruct (descriptors k !! d) as [[ino pos]|] eqn:Hd; [|done].
  destruct (inodes k !! ino) as [[content|]|]; try done.
  repeat split. cbn. apply dom_insert_lookup_L. by eexists.
Qed.

Lemma sys_lseek0_subscriptions k d wh : same_subscriptions k (sys_lseek0 k d wh).2.
Proof.
  unfold sys_lseek0. destruct (descriptors k !! d) as [[ino pos]|] eqn:Hd; [|done].
  repeat split. cbn. apply dom_insert_lookup_L. by eexists.
Qed.

Lemma read_loop_subscriptions fuel : ∀ k w,
  same_subscriptions k (read_loop fuel k w).1.1
  ∧ reinit_calls (read_loop fuel k w).2 = [].
Proof.
  induction fuel as [|fuel IH]; intros k w; [done|].
  cbn [read_loop].
  pose proof (sys_read_subscriptions k (fd w) (read_count w)) as Hk1.
  destruct (sys_read k (fd w) (read_count w)) as [ret k1]. cbn [snd] in Hk1.
  pose proof (feed_no_reinit w ret) as Hnr.
  destruct (feed w ret) as [[w1 ok] evs1]. cbn [fst snd] in *.
  destruct ok; [|done].
  specialize (IH k1 w1).
  destruct (read_loop fuel k1 w1) as [[k2 w2] evs2]. cbn [fst snd] in *.
  destruct IH as [Hk2 Hnr2]. split; [by eapply same_subscriptions_trans|].
  by rewrite reinit_calls_app, Hnr, Hnr2.
Qed.

(** Reading never costs the subscription.  Whatever happens in
    [read_watch] (a read error, the end of the file, a truncation), it
    opens and closes no descriptor, adds and removes no watch, does not
    enter [reinit_file], and changes nothing in the registry but the
    buffer and the offset of its own record. *)
Theorem read_watch_keeps_subscription st i :
  same_subscriptions (kernel st) (kernel (read_watch st i))
  ∧ reinit_calls (new_events st (read_watch st i)) = []
  ∧ length (registry (read_watch st i)) = length (registry st)
  ∧ (∀ w, registry st !! i = Some w →
          ∃ data pos off,
            registry (read_watch st i)
            = <[i := set_file_offset (set_buffer w data pos) off]> (registry st)).
Proof.
  destruct (registry st !! i) as [w|] eqn:Hi.
  2: { unfold read_watch, new_events. rewrite Hi, drop_all. done. }
  assert (∀ w0, Some w = Some w0 →
           ∃ data pos off,
             registry (read_watch st i)
             = <[i := set_file_offset (set_buffer w0 data pos) off]> (registry st)) as Hreg.
  { intros w0 [= <-]. destruct (read_watch_registry st i w Hi) as (d & p & off & H & _).
    by exists d, p, off. }
  split; [|split; [|split; [|exact Hreg]]].
  - unfold read_watch. rewrite Hi.
    assert (same_subscriptions (kernel st) (read_watch_rewind (kernel st) w).1) as H1.
    { unfold read_watch_rewind. destruct (sys_fstat_size (kernel st) (fd w)); [|done].
      case_bool_decide; [apply sys_lseek0_subscriptions|done]. }
    destruct (read_watch_rewind (kernel st) w) as [k1 evs0]. cbn [fst] in H1.
    pose proof (read_loop_subscriptions (S (bytes_left k1 (fd w))) k1 w) as [H2 _].
    destruct (read_loop (S (bytes_left k1 (fd w))) k1 w) as [[k2 w2] evs]. cbn [fst] in H2.
    pose proof (sys_lseek0_subscriptions k2 (fd w2) SEEK_CUR) as H3.
    destruct (sys_lseek0 k2 (fd w2) SEEK_CUR) as [off k3]. cbn [snd] in H3.
    cbn [kernel log set_entry set_kernel].
    eapply same_subscriptions_trans; [|exact H3].
    by eapply same_subscriptions_trans.
  - unfold read_watch, new_events. rewrite Hi.
    assert (reinit_calls (read_watch_rewind (kernel st) w).2 = []) as H1.
    { unfold read_watch_rewind. destruct (sys_fstat_size (kernel st) (fd w)); [|done].
      by case_bool_decide. }
    destruct (read_watch_rewind (kernel st) w) as [k1 evs0]. cbn [snd] in H1.
    pose proof (read_loop_subscriptions (S (bytes_left k1 (fd w))) k1 w) as [_ H2].
    destruct (read_loop (S (bytes_left k1 (fd w))) k1 w) as [[k2 w2] evs]. cbn [snd] in H2.
    destruct (sys_lseek0 k2 (fd w2) SEEK_CUR) as [off k3].
    cbn [trace log set_entry set_kernel].
    by rewrite drop_app_length, reinit_calls_app, H1, H2.
  - destruct (Hreg w eq_refl) as (d & p & off & ->). apply length_insert.
Qed.

(** ** Rotation through delete-self *)

(** When a record is reset by [file_deleted] and then reinitialised, the
    assembler starts empty: the cursor is 0 whatever residual the record
    held before, and the record keeps its name.  (Reinitialising a record
    that was not reset first keeps the residual.) *)
Theorem reinit_after_delete_is_fresh st i w :
  registry st !! i = Some w →
  ∃ w', registry (reinit_file (file_deleted st i) i) !! i = Some w'
        ∧ line_buffer_pos w' = 0
        ∧ name w' = name w ∧ kind_is_file w' = kind_is_file w
        ∧ reinit_calls (new_events st (reinit_file (file_deleted st i) i)) = [i].
Proof.
  intros Hi.
  assert (i < length (registry st)) as Hlt by (by eapply lookup_lt_Some).
  pose proof (file_deleted_registry st i w Hi) as Hdel.
  assert (trace (file_deleted st i) = trace st) as Htr
    by (unfold file_deleted; by rewrite Hi).
  set (w0 := FileWatch (-1) (parent w) (name w) (-1) 0 (line_buffer_data w) 0
                       (kind_is_file w)) in *.
  assert (registry (file_deleted st i) !! i = Some w0) as Hi0
    by (rewrite Hdel; by apply list_lookup_insert_eq).
  destruct (reinit_file_outcome (file_deleted st i) i w0 Hi0)
    as (w' & extra & evs & Hreg & Htr' & _ & Hn & Hk & _ & Hp & _ & _ & Hout).
  exists w'. split.
  { rewrite Hreg, lookup_app_l by (by rewrite length_insert, Hdel, length_insert).
    apply list_lookup_insert_eq. by rewrite Hdel, length_insert. }
  split; [done|]. split; [done|]. split; [done|].
  unfold new_events. rewrite Htr', Htr, drop_app_length.
  change (reinit_calls (CallReinit i :: evs)) with (i :: reinit_calls evs).
  by destruct Hout as [(_ & _ & _ & ->)|[(_ & _ & _ & -> & _)|(_ & _ & -> & _)]].
Qed.

Lemma reinit_after_delete_is_fresh_witness :
  let st0 := started (ext_create (tmp_world 128) log_txt (Regular [])) in
  let st := read_events (meanwhile st0 (λ k, ext_append k log_txt (chars "abc")))
              [InotifyEvent (wd_of st0 0) IN_MODIFY []] in
  line_buffer_pos <$> registry st !! 0 = Some 3
  ∧ ∃ w', registry (reinit_file (file_deleted st 0) 0) !! 0 = Some w'
          ∧ line_buffer_pos w' = 0.
Proof.
  intros st0 st.
  assert (∃ w, registry st !! 0 = Some w ∧ line_buffer_pos w = 3) as (w & H0 & Hpos).
  { destruct (registry st !! 0) as [w|] eqn:E.
    - exists w. split; [done|].
      assert (line_buffer_pos <$> registry st !! 0 = Some 3) as H by (vm_compute; reflexivity).
      rewrite E in H. by injection H.
    - exfalso. assert (is_Some (registry st !! 0)) as [? H] by (vm_compute; eauto).
      congruence. }
  split; [by rewrite H0; cbn; rewrite Hpos|].
  destruct (reinit_after_delete_is_fresh st 0 w H0) as (w' & H1 & H2 & _).
  exists w'. split; [exact H1 | exact H2].
Defined.

(** ** A NUL byte stalls the assembler *)

Lemma handle_lines_loop_none fuel nm data start :
  strchr data start NL = None →
  handle_lines_loop fuel nm data start = (data, start, []).
Proof. intros H. destruct fuel; [done|]. cbn [handle_lines_loop]. by rewrite H. Qed.

(** The code works on C strings: when the buffer holds a NUL byte with no
    newline before it, [handle_lines] finds no line, whatever follows the
    NUL, newlines included; as long as the buffer is not full it hands
    nothing over and leaves the record exactly as it is. *)
Theorem handle_lines_stalls_on_nul w l rest :
  line_buffer_data w = l ++ NUL :: rest →
  nl_free l →
  line_buffer_pos w < LINE_BUFFER_SIZE - 1 →
  handle_lines w = (w, []).
Proof.
  intros Hdata Hl Hpos. unfold handle_lines.
  rewrite handle_lines_loop_none.
  2: { rewrite Hdata. by apply (strchr_app_none [] l rest). }
  unfold shift_residual. rewrite bool_decide_eq_false_2 by (intros H; by apply H).
  unfold split_long_line. cbn [set_buffer line_buffer_pos].
  rewrite bool_decide_eq_false_2 by lia. by destruct w.
Qed.

Lemma handle_lines_stalls_on_nul_witness :
  let w := (do_read (fresh_watch (chars "f") true (-1))
              (ReadData (chars "a" ++ [NUL] ++ chars "b" ++ [NL]))).1.1 in
  line_buffer_pos w = 4 ∧ handle_lines w = (w, []).
Proof.
  intros w. split; [vm_compute; reflexivity|].
  apply (handle_lines_stalls_on_nul w (chars "a")
           (chars "b" ++ [NL; NUL] ++ replicate (LINE_BUFFER_SIZE - 5) NUL)).
  - vm_compute. reflexivity.
  - apply (bool_decide_unpack _). vm_compute. exact I.
  - pose proof LINE_BUFFER_SIZE_val.
    assert (line_buffer_pos w = 4) as -> by (vm_compute; reflexivity). lia.
Defined.

(** ** A name that does not resolve *)

(** When the record's name does not resolve to a file, [reinit_file] ends
    with the record holding neither descriptor nor watch and its offset as
    it was, and the only thing logged is one "Could not open". *)
Theorem reinit_file_missing_path st i w :
  registry st !! i = Some w →
  paths (kernel st) !! name w = None →
  ∃ w', registry (reinit_file st i) !! i = Some w'
        ∧ fd w' = (-1)%Z ∧ watch_desc w' = (-1)%Z
        ∧ file_offset w' = file_offset w
        ∧ new_events st (reinit_file st i) = [CallReinit i; LogOpenFailed (name w)].
Proof.
  intros Hi Hpath.
  assert (i < length (registry st)) as Hlt by (by eapply lookup_lt_Some).
  destruct (reinit_file_outcome st i w Hi)
    as (w' & extra & evs & Hreg & Htr & _ & _ & _ & _ & _ & _ & _ & Hout).
  exists w'. split.
  { rewrite Hreg, lookup_app_l by (by rewrite length_insert).
    by apply list_lookup_insert_eq. }
  unfold new_events. rewrite Htr, drop_app_length.
  destruct Hout as [(H1 & H2 & H3 & ->)|[(_ & _ & _ & _ & _ & [ino Hino])|(_ & _ & _ & ino & Hino & _)]].
  - done.
  - congruence.
  - congruence.
Qed.

Lemma reinit_file_missing_path_witness :
  let st := started (tmp_world 128) in
  let w := FileWatch (-1) (Some 1) log_txt (-1) 0 (replicate LINE_BUFFER_SIZE NUL) 0 true in
  registry st !! 0 = Some w
  ∧ new_events st (reinit_file st 0) = [CallReinit 0; LogOpenFailed log_txt].
Proof.
  intros st w.
  assert (registry st !! 0 = Some w) as H0 by (vm_compute; reflexivity).
  assert (paths (kernel st) !! name w = None) as H1 by (vm_compute; reflexivity).
  destruct (reinit_file_missing_path st 0 w H0 H1) as (w' & _ & _ & _ & _ & H).
  split; [exact H0 | exact H].
Defined.

(** ** What file_deleted releases *)

(** [file_deleted] closes the record's descriptor and removes its watch,
    and nothing else: afterwards the kernel holds no descriptor and no
    watch under the record's numbers, every other descriptor and watch is
    as before, the files are untouched and nothing is logged. *)
Theorem file_deleted_releases st i w :
  registry st !! i = Some w →
  descriptors (kernel (file_deleted st i)) !! fd w = None
  ∧ inotify_watches (kernel (file_deleted st i)) !! watch_desc w = None
  ∧ (∀ d, d ≠ fd w →
       descriptors (kernel (file_deleted st i)) !! d = descriptors (kernel st) !! d)
  ∧ (∀ wd, wd ≠ watch_desc w →
       inotify_watches (kernel (file_deleted st i)) !! wd = inotify_watches (kernel st) !! wd)
  ∧ paths (kernel (file_deleted st i)) = paths (kernel st)
  ∧ inodes (kernel (file_deleted st i)) = inodes (kernel st)
  ∧ trace (file_deleted st i) = trace st.
Proof.
  intros Hi. unfold file_deleted. rewrite Hi.
  cbn [kernel set_entry set_kernel trace sys_close sys_inotify_rm_watch
       set_descriptors set_inotify_watches descriptors inotify_watches paths inodes
       first_fd next_wd max_user_watches].
  split; [apply lookup_delete_eq|]. split; [apply lookup_delete_eq|].
  split; [intros d Hd; by apply lookup_delete_ne|].
  split; [intros wd Hwd; by apply lookup_delete_ne|]. done.
Qed.

Lemma file_deleted_releases_witness :
  let st := started (ext_create (tmp_world 128) log_txt (Regular [])) in
  is_Some (descriptors (kernel st) !! 4%Z)
  ∧ descriptors (kernel (file_deleted st 0)) !! 4%Z = None
  ∧ inotify_watches (kernel (file_deleted st 0)) !! 2%Z = None.
Proof.
  intros st.
  set (w := FileWatch 2 (Some 1) log_txt 4 0 (replicate LINE_BUFFER_SIZE NUL) 0 true).
  assert (registry st !! 0 = Some w) as H0 by (vm_compute; reflexivity).
  destruct (file_deleted_releases st 0 w H0) as (H1 & H2 & _).
  split; [|split; [exact H1 | exact H2]].
  exists (1, 0). vm_compute. reflexivity.
Defined.

(** ** Events for descriptors the registry does not hold *)

Lemma find_watch_None st wd :
  find_watch st wd = None ↔ ∀ w, w ∈ registry st → watch_desc w ≠ wd.
Proof.
  unfold find_watch.
  destruct (list_find _ (registry st)) as [[i x]|] eqn:Hfind.
  - apply list_find_Some in Hfind as (Hi & Hx & _).
    split; [done|]. intros Hall. exfalso.
    apply (Hall x); [by eapply list_elem_of_lookup_2|done].
  - split; [|done]. intros _ w Hw.
    apply list_find_None in Hfind. rewrite Forall_forall in Hfind. by apply Hfind.
Qed.

Lemma find_watch_Some st wd i w :
  registry st !! i = Some w → watch_desc w = wd →
  (∀ j wj, registry st !! j = Some wj → j < i → watch_desc wj ≠ wd) →
  find_watch st wd = Some i.
Proof.
  intros Hi Hw Hfirst. unfold find_watch.
  destruct (list_find _ (registry st)) as [[k x]|] eqn:Hfind.
  - apply list_find_Some in Hfind as (Hk & Hx & Hbefore). f_equal.
    destruct (Nat.lt_trichotomy k i) as [Hlt|[->|Hlt]]; [|done|].
    + exfalso. by apply (Hfirst k x Hk Hlt).
    + exfalso. by apply (Hbefore i w Hi Hlt).
  - exfalso. apply list_find_None in Hfind. rewrite Forall_forall in Hfind.
    apply (Hfind w); [by eapply list_elem_of_lookup_2|done].
Qed.

Lemma log_nil st : log st [] = st.
Proof. destruct st. unfold log. cbn. by rewrite app_nil_r. Qed.

Lemma log_log st a b : log (log st a) b = log st (a ++ b).
Proof. unfold log. cbn. by rewrite app_assoc. Qed.

(** A batch in which no event carries the watch descriptor of any record
    changes neither the registry nor the kernel: [read_events] logs one
    "unknown watch descriptor" per event, in order, and does nothing
    else. *)
Theorem read_events_unknown batch : ∀ st,
  (∀ ev w, ev ∈ batch → w ∈ registry st → watch_desc w ≠ ev_wd ev) →
  read_events st batch
  = log st ((λ ev, LogUnknownWatch (ev_mask ev) (ev_wd ev)) <$> batch).
Proof.
  unfold read_events.
  induction batch as [|ev batch IH]; intros st Hall.
  { cbn. by rewrite log_nil. }
  cbn [foldl fmap list_fmap].
  assert (dispatch st ev = log st [LogUnknownWatch (ev_mask ev) (ev_wd ev)]) as ->.
  { unfold dispatch.
    assert (find_watch st (ev_wd ev) = None) as ->; [|done].
    apply find_watch_None. intros w Hw. apply Hall; [apply list_elem_of_here|done]. }
  rewrite IH.
  - by rewrite log_log.
  - intros ev' w Hev Hw. apply Hall; [by apply list_elem_of_further|done].
Qed.

Lemma read_events_unknown_witness :
  let st := started (ext_create (tmp_world 128) log_txt (Regular [])) in
  read_events st [InotifyEvent 7 IN_MODIFY []; InotifyEvent 9 IN_IGNORED []]
  = log st [LogUnknownWatch IN_MODIFY 7; LogUnknownWatch IN_IGNORED 9].
Proof.
  intros st.
  apply (read_events_unknown
           [InotifyEvent 7 IN_MODIFY []; InotifyEvent 9 IN_IGNORED []] st).
  intros ev w Hev Hw.
  assert (watch_desc w = 2%Z ∨ watch_desc w = 1%Z) as Hwd.
  { apply list_elem_of_lookup in Hw as [j Hj].
    assert (watch_desc <$> registry st = [2%Z; 1%Z]) as Hreg by (vm_compute; reflexivity).
    assert ((watch_desc <$> registry st) !! j = Some (watch_desc w)) as Hj'
      by (by rewrite list_lookup_fmap, Hj).
    rewrite Hreg in Hj'.
    destruct j as [|[|j]]; [left|right|exfalso]; cbn in Hj';
      [by injection Hj'|by injection Hj'|done]. }
  apply elem_of_cons in Hev as [->|Hev].
  { cbn [ev_wd]. destruct Hwd as [-> | ->]; discriminate. }
  apply elem_of_cons in Hev as [->|Hev].
  { cbn [ev_wd]. destruct Hwd as [-> | ->]; discriminate. }
  by apply elem_of_nil in Hev.
Defined.

(** Once [file_deleted] has reset a record, an event that still carries
    the record's old watch descriptor (the kernel sends [IN_IGNORED] for a
    removed watch) finds no record: it is logged as an event for an unknown
    watch descriptor and changes nothing. *)
Theorem event_after_delete_is_unknown st i w mask nm :
  registry st !! i = Some w →
  watch_desc w ≠ (-1)%Z →
  (∀ j wj, registry st !! j = Some wj → j ≠ i → watch_desc wj ≠ watch_desc w) →
  dispatch (file_deleted st i) (InotifyEvent (watch_desc w) mask nm)
  = log (file_deleted st i) [LogUnknownWatch mask (watch_desc w)].
Proof.
  intros Hi Hwd Hothers. unfold dispatch. cbn [ev_wd ev_mask ev_name].
  assert (find_watch (file_deleted st i) (watch_desc w) = None) as ->; [|done].
  apply find_watch_None. intros x Hx.
  rewrite (file_deleted_registry st i w Hi) in Hx.
  apply list_elem_of_lookup in Hx as [j Hj].
  destruct (decide (j = i)) as [->|Hne].
  - rewrite list_lookup_insert_eq in Hj by (by eapply lookup_lt_Some).
    injection Hj as <-. cbn [watch_desc]. congruence.
  - rewrite list_lookup_insert_ne in Hj by done. by apply (Hothers j x).
Qed.

Lemma event_after_delete_is_unknown_witness :
  let st := started (ext_create (tmp_world 128) log_txt (Regular [])) in
  new_events st (dispatch (file_deleted st 0) (InotifyEvent 2 IN_IGNORED []))
  = [LogUnknownWatch IN_IGNORED 2].
Proof.
  intros st.
  set (w := FileWatch 2 (Some 1) log_txt 4 0 (replicate LINE_BUFFER_SIZE NUL) 0 true).
  assert (registry st !! 0 = Some w) as H0 by (vm_compute; reflexivity).
  assert (watch_desc w ≠ (-1)%Z) as H1 by discriminate.
  assert (∀ j wj, registry st !! j = Some wj → j ≠ 0 → watch_desc wj ≠ watch_desc w) as H2.
  { intros j wj Hj Hne.
    assert (watch_desc <$> registry st = [2%Z; 1%Z]) as Hreg by (vm_compute; reflexivity).
    assert ((watch_desc <$> registry st) !! j = Some (watch_desc wj)) as Hj'
      by (by rewrite list_lookup_fmap, Hj).
    rewrite Hreg in Hj'.
    destruct j as [|[|j]]; [done| |]; cbn in Hj'; [|done].
    injection Hj' as <-. discriminate. }
  change 2%Z with (watch_desc w) at 1 2.
  rewrite (event_after_delete_is_unknown st 0 w IN_IGNORED [] H0 H1 H2).
  unfold new_events.
  assert (trace (file_deleted st 0) = trace st) as Htr
    by (unfold file_deleted; by rewrite H0).
  cbn [trace log]. by rewrite Htr, drop_app_length.
Defined.

(** [find_watch] compares descriptors and nothing else, [-1] included: an
    event is handed to the first record whose [watch_desc] equals the
    event's, so an event that carries [-1] (as a queue overflow does) goes
    to the first record that has no watch. *)
Theorem dispatch_first_match st i w ev :
  registry st !! i = Some w →
  watch_desc w = ev_wd ev →
  (∀ j wj, registry st !! j = Some wj → j < i → watch_desc wj ≠ ev_wd ev) →
  dispatch st ev = handle_event st i (ev_name ev) (ev_mask ev).
Proof.
  intros Hi Hw Hfirst. unfold dispatch.
  by rewrite (find_watch_Some st (ev_wd ev) i w Hi Hw Hfirst).
Qed.

Lemma dispatch_first_match_witness :
  let st := started (tmp_world 128) in
  new_events st (dispatch st (InotifyEvent (-1) 0x4000 []))
  = [LogUnhandled 0x4000 log_txt].
Proof.
  intros st.
  set (w := FileWatch (-1) (Some 1) log_txt (-1) 0 (replicate LINE_BUFFER_SIZE NUL) 0 true).
  assert (registry st !! 0 = Some w) as H0 by (vm_compute; reflexivity).
  rewrite (dispatch_first_match st 0 w (InotifyEvent (-1) 0x4000 []) H0 eq_refl).
  - vm_compute. reflexivity.
  - intros j wj _ Hlt. lia.
Defined.

(** ** A file nobody waits for *)

Lemma file_appeared_loop_no_match dir child fuel : ∀ st j,
  Forall (λ w, appeared_match dir (name w) child = false) (registry st) →
  file_appeared_loop fuel st dir child j = st.
Proof.
  induction fuel as [|fuel IH]; intros st j Hall; [done|].
  cbn [file_appeared_loop].
  destruct (registry st !! j) as [file|] eqn:Hj; [|done].
  rewrite (Forall_lookup_1 _ _ _ _ Hall Hj). by apply IH.
Qed.

(** When a name appears in a watched directory and no record's name is
    that directory's name followed by slashes and the new name,
    [file_appeared] does nothing at all: no record is reinitialised, no
    system call is made, nothing is logged. *)
Theorem file_appeared_no_match st i dirw child :
  registry st !! i = Some dirw →
  Forall (λ w, appeared_match (name dirw) (name w) child = false) (registry st) →
  file_appeared st i child = st.
Proof.
  intros Hi Hall. unfold file_appeared. rewrite Hi.
  by apply file_appeared_loop_no_match.
Qed.

Lemma file_appeared_no_match_witness :
  let st := started (ext_create (tmp_world 128) log_txt (Regular [])) in
  file_appeared st 1 (chars "other.txt") = st.
Proof.
  intros st.
  set (dirw := FileWatch 1 None (chars "/tmp") (-1) 0 (replicate LINE_BUFFER_SIZE NUL) 0 false).
  assert (registry st !! 1 = Some dirw) as H1 by (vm_compute; reflexivity).
  apply (file_appeared_no_match st 1 dirw (chars "other.txt") H1).
  assert (name <$> registry st = [log_txt; chars "/tmp"]) as Hnames
    by (vm_compute; reflexivity).
  apply Forall_lookup. intros j x Hj.
  assert ((name <$> registry st) !! j = Some (name x)) as Hj'
    by (by rewrite list_lookup_fmap, Hj).
  rewrite Hnames in Hj'.
  destruct j as [|[|j]]; cbn in Hj'; [| |done];
    injection Hj' as <-; vm_compute; reflexivity.
Defined.

(** ** Directory records are unique *)

Lemma dirs_fresh_app_dir ids nm :
  dirs_fresh ids → (∀ x, x ∈ ids → x.1 ≠ nm) → dirs_fresh (ids ++ [(nm, false)]).
Proof.
  intros Hids Hnew p q nm' x Hp Hlt Hq.
  assert (q < length ids) as Hq'.
  { apply lookup_lt_Some in Hp. rewrite length_app in Hp. cbn [length] in Hp. lia. }
  rewrite lookup_app_l in Hq by done.
  destruct (decide (p < length ids)) as [Hp'|Hp'].
  - rewrite lookup_app_l in Hp by done. by apply (Hids p q nm' x).
  - rewrite lookup_app_r in Hp by lia.
    destruct (p - length ids) as [|n] eqn:Hn; [|by destruct n].
    injection Hp as <-. apply Hnew. by eapply list_elem_of_lookup_2.
Qed.

Lemma dirs_fresh_app_file ids nm : dirs_fresh ids → dirs_fresh (ids ++ [(nm, true)]).
Proof.
  intros Hids p q nm' x Hp Hlt Hq.
  assert (q < length ids) as Hq'.
  { apply lookup_lt_Some in Hp. rewrite length_app in Hp. cbn [length] in Hp. lia. }
  rewrite lookup_app_l in Hq by done.
  destruct (decide (p < length ids)) as [Hp'|Hp'].
  - rewrite lookup_app_l in Hp by done. by apply (Hids p q nm' x).
  - rewrite lookup_app_r in Hp by lia.
    destruct (p - length ids) as [|n] eqn:Hn; [done|by destruct n].
Qed.

(** [wait_for_parent] links a directory record only under a name that no
    record has. *)
Lemma wait_for_parent_new_name st i w :
  registry st !! i = Some w →
  length (registry (wait_for_parent st i)) = length (registry st)
  ∨ ∃ e, strrchr (name w) SLASH = Some e
         ∧ ∀ y, y ∈ registry st → name y ≠ take e (name w).
Proof.
  intros Hi. unfold wait_for_parent. rewrite Hi.
  destruct (parent w); [by left|].
  destruct (strrchr (name w) SLASH) as [e|] eqn:He; [|by left].
  destruct (find_watch_by_name st (take e (name w))) as [p|] eqn:Hfind.
  - left. cbn [registry set_entry]. apply length_insert.
  - right. exists e. split; [done|]. by apply find_watch_by_name_None.
Qed.

Lemma reinit_file_new_name st i w :
  registry st !! i = Some w →
  length (registry (reinit_file st i)) = length (registry st)
  ∨ ∃ e, strrchr (name w) SLASH = Some e
         ∧ ∀ y, y ∈ registry st → name y ≠ take e (name w).
Proof.
  intros Hi. unfold reinit_file. rewrite Hi.
  assert (i < length (registry st)) as Hlt by (by eapply lookup_lt_Some).
  set (k2 := if bool_decide (0 ≤ watch_desc w)%Z then _ else _).
  set (w1 := set_watch_desc (set_fd w (-1)) (-1)).
  set (st1 := set_entry (set_kernel (log st [CallReinit i]) k2) i w1).
  assert (registry st1 = <[i := w1]> (registry st)) as Hreg1 by done.
  assert (registry st1 !! i = Some w1) as Hi1
    by (rewrite Hreg1; by apply list_lookup_insert_eq).
  destruct (wait_for_parent_new_name st1 i w1 Hi1) as [Hlen|(e & He & Hfresh)].
  - left. rewrite Hreg1, length_insert in Hlen.
    set (st2 := wait_for_parent st1 i) in *.
    destruct (registry st2 !! i) as [w2|]; [|done].
    destruct (sys_open (kernel st2) (name w2)) as [d k3].
    case_bool_decide; [done|].
    destruct (sys_inotify_add_watch k3 (name w2) _) as [wd k4].
    case_bool_decide.
    + destruct (sys_lseek0 k4 d SEEK_END) as [off k5].
      cbn [registry set_entry set_kernel]. by rewrite length_insert.
    + cbn [registry log set_entry set_kernel]. by rewrite length_insert.
  - right. exists e. split; [exact He|]. intros y Hy.
    apply list_elem_of_lookup in Hy as [j Hj].
    destruct (decide (j = i)) as [->|Hne].
    + assert (y = w) as -> by congruence.
      apply (Hfresh w1). by eapply list_elem_of_lookup_2.
    + apply (Hfresh y). apply (list_elem_of_lookup_2 _ j).
      by rewrite Hreg1, list_lookup_insert_ne.
Qed.

Lemma reinit_file_dirs_fresh st i :
  dirs_fresh (identity <$> registry st) →
  dirs_fresh (identity <$> registry (reinit_file st i)).
Proof.
  intros Hfresh. destruct (registry st !! i) as [w|] eqn:Hi.
  2: { unfold reinit_file. by rewrite Hi. }
  assert (i < length (registry st)) as Hlt by (by eapply lookup_lt_Some).
  destruct (reinit_file_outcome st i w Hi)
    as (w' & extra & evs & Hreg & _ & Hextra & Hn & Hk & _).
  pose proof (reinit_file_new_name st i w Hi) as Hnew.
  rewrite Hreg in Hnew |- *. rewrite fmap_app.
  rewrite (identity_insert _ i w w' Hi) by (unfold identity; congruence).
  destruct Hextra as [->|(e & wd & He & ->)]; [by rewrite app_nil_r|].
  destruct Hnew as [Hlen|(e' & He' & Hnone)].
  { rewrite length_app, length_insert in Hlen. cbn [length] in Hlen. lia. }
  assert (e' = e) as -> by congruence.
  change (identity <$> [fresh_watch (take e (name w)) false wd])
    with [(take e (name w), false)].
  apply dirs_fresh_app_dir; [done|].
  intros x Hx. apply list_elem_of_fmap in Hx as (y & -> & Hy). by apply Hnone.
Qed.

Section identities_invariant.
(** A property of the names and kinds of the records, in order, that
    [reinit_file] keeps: the event loop keeps it, whatever other processes
    do meanwhile. *)
Variable I : list (list ascii * bool) → Prop.
Hypothesis I_reinit : ∀ st i,
  I (identity <$> registry st) → I (identity <$> registry (reinit_file st i)).

Lemma file_appeared_loop_ids dir child fuel : ∀ st j,
  I (identity <$> registry st) →
  I (identity <$> registry (file_appeared_loop fuel st dir child j)).
Proof.
  induction fuel as [|fuel IH]; intros st j Hst; [done|].
  cbn [file_appeared_loop]. destruct (registry st !! j) as [file|]; [|done].
  apply IH. destruct (appeared_match dir (name file) child); [|done].
  by apply I_reinit.
Qed.

Lemma handle_event_ids st i child mask :
  I (identity <$> registry st) →
  I (identity <$> registry (handle_event st i child mask)).
Proof.
  intros Hst. unfold handle_event.
  set (s1 := if has_bits mask IN_MODIFY then _ else _).
  assert (identity <$> registry s1.1 = identity <$> registry st) as H1.
  { subst s1. destruct (has_bits mask IN_MODIFY); [|done]. cbn [fst].
    destruct (registry st !! i) as [w|] eqn:Hi.
    - destruct (read_watch_registry st i w Hi) as (d & p & off & -> & _).
      by apply (identity_insert _ i w).
    - unfold read_watch. by rewrite Hi. }
  destruct s1 as [st1 mask1]. cbn [fst] in H1.
  set (s2 := if has_bits mask1 IN_CREATE || has_bits mask1 IN_MOVED_TO then _ else _).
  assert (I (identity <$> registry s2.1)) as H2.
  { subst s2. rewrite <- H1 in Hst.
    destruct (has_bits mask1 IN_CREATE || has_bits mask1 IN_MOVED_TO); [|done].
    cbn [fst]. unfold file_appeared.
    destruct (registry st1 !! i); [|done].
    by apply file_appeared_loop_ids. }
  destruct s2 as [st2 mask2]. cbn [fst] in H2.
  set (s3 := if has_bits mask2 IN_DELETE_SELF || has_bits mask2 IN_MOVE_SELF then _ else _).
  assert (identity <$> registry s3.1 = identity <$> registry st2) as H3.
  { subst s3. destruct (has_bits mask2 IN_DELETE_SELF || has_bits mask2 IN_MOVE_SELF); [|done].
    cbn [fst]. destruct (registry st2 !! i) as [w|] eqn:Hi.
    - rewrite (file_deleted_registry st2 i w Hi). by apply (identity_insert _ i w).
    - unfold file_deleted. by rewrite Hi. }
  destruct s3 as [st3 mask3]. cbn [fst] in H3.
  rewrite <- H3 in H2.
  by destruct (Z.ldiff mask3 IN_IGNORED =? 0)%Z.
Qed.

Lemma run_loop_ids steps : ∀ st,
  I (identity <$> registry st) → I (identity <$> registry (run_loop st steps)).
Proof.
  unfold run_loop. induction steps as [|s steps IH]; intros st Hst; [done|].
  cbn [foldl]. apply IH. destruct s as [ev|f]; cbn [run_step]; [|done].
  unfold dispatch.
  destruct (find_watch st (ev_wd ev)); [by apply handle_event_ids|done].
Qed.
End identities_invariant.

Lemma init_files_dirs_fresh names : ∀ st,
  dirs_fresh (identity <$> registry st) →
  dirs_fresh (identity <$> registry (init_files st names).1).
Proof.
  induction names as [|nm names IH]; intros st Hst; [done|].
  cbn [init_files]. unfold init_file.
  destruct (init_watch_registry st nm true) as (wd & Hreg & _).
  destruct (init_watch st nm true) as [st1 idx]. cbn [fst] in *.
  apply IH. apply reinit_file_dirs_fresh. rewrite Hreg, fmap_app.
  change (identity <$> [fresh_watch nm true wd]) with [(nm, true)].
  by apply dirs_fresh_app_file.
Qed.

Lemma reinit_file_keeps_files (files : list (list ascii * bool)) st i :
  filter (λ x, x.2 = true) (identity <$> registry st) = files →
  filter (λ x, x.2 = true) (identity <$> registry (reinit_file st i)) = files.
Proof.
  intros <-. destruct (reinit_file_identities st i) as (extra & -> & Hextra).
  by rewrite filter_app, (filter_files_dirs _ Hextra), app_nil_r.
Qed.

Lemma count_named_le_1 (reg : list file_watch) nm :
  (∀ p q x y, reg !! p = Some x → reg !! q = Some y →
              name x = nm → name y = nm → p = q) →
  length (filter (λ w, name w = nm) reg) ≤ 1.
Proof.
  induction reg as [|x reg IH]; intros Huniq; [cbn; lia|].
  destruct (decide (name x = nm)) as [Hx|Hx].
  - rewrite filter_cons_True by done. rewrite count_named_zero; [cbn; lia|].
    intros w Hw Hnm. apply list_elem_of_lookup in Hw as [q Hq].
    by specialize (Huniq 0 (S q) x w eq_refl Hq Hx Hnm).
  - rewrite filter_cons_False by done. apply IH.
    intros p q y z Hp Hq Hy Hz.
    by specialize (Huniq (S p) (S q) y z Hp Hq Hy Hz) as [= ->].
Qed.

(** Directory records are unique.  Start the program on any arguments in
    any file system, then let it handle any events while other processes
    change what the kernel holds in any way between any two events.  In
    every state reached, two directory records never have the same name;
    and when [D] is not itself one of the paths given on the command line,
    every record named [D] is a directory record, so at most one record is
    named [D]. *)
Theorem reachable_directory_records_unique k args steps D :
  let reg := registry (run_loop (init_files (State [] k []) args).1 steps) in
  (∀ p q dp dq, reg !! p = Some dp → reg !! q = Some dq →
                kind_is_file dp = false → kind_is_file dq = false →
                name dp = name dq → p = q)
  ∧ (D ∉ args →
     Forall (λ w, name w = D → kind_is_file w = false) reg
     ∧ length (filter (λ w, name w = D) reg) ≤ 1).
Proof.
  intros reg.
  assert (dirs_fresh (identity <$> reg)) as Hfresh.
  { subst reg. apply (run_loop_ids dirs_fresh reinit_file_dirs_fresh).
    apply init_files_dirs_fresh. intros p q nm x Hp. done. }
  assert (filter (λ x, x.2 = true) (identity <$> reg) = (λ nm, (nm, true)) <$> args)
    as Hfiles.
  { subst reg.
    apply (run_loop_ids (λ ids, filter (λ x, x.2 = true) ids = (λ nm, (nm, true)) <$> args)).
    - intros st i. apply reinit_file_keeps_files.
    - by rewrite init_files_identities. }
  assert (∀ p q dp dq, reg !! p = Some dp → reg !! q = Some dq →
                       kind_is_file dp = false → kind_is_file dq = false →
                       name dp = name dq → p = q) as Huniq.
  { intros p q dp dq Hp Hq Hkp Hkq Hnm.
    assert ((identity <$> reg) !! p = Some (name dp, false)) as Hp'
      by (rewrite list_lookup_fmap, Hp; unfold identity; cbn; by rewrite Hkp).
    assert ((identity <$> reg) !! q = Some (name dq, false)) as Hq'
      by (rewrite list_lookup_fmap, Hq; unfold identity; cbn; by rewrite Hkq).
    destruct (Nat.lt_trichotomy p q) as [Hlt|[->|Hlt]]; [|done|].
    - exfalso. by apply (Hfresh q p (name dq) _ Hq' Hlt Hp').
    - exfalso. apply (Hfresh p q (name dp) _ Hp' Hlt Hq'). done. }
  split; [exact Huniq|].
  intros HD.
  assert (Forall (λ w, name w = D → kind_is_file w = false) reg) as Hdirs.
  { apply Forall_forall. intros w Hw Hnm.
    destruct (kind_is_file w) eqn:Hk; [|done]. exfalso. apply HD.
    assert ((D, true) ∈ filter (λ x : list ascii * bool, x.2 = true) (identity <$> reg))
      as Hin.
    { apply list_elem_of_filter. split; [done|].
      apply list_elem_of_fmap. exists w. split; [|done]. unfold identity. by rewrite Hnm, Hk. }
    rewrite Hfiles in Hin. apply list_elem_of_fmap in Hin as (nm & [= ->] & Hin). done. }
  split; [exact Hdirs|].
  apply count_named_le_1. intros p q x y Hp Hq Hx Hy.
  rewrite Forall_forall in Hdirs.
  apply (Huniq p q x y Hp Hq).
  - apply Hdirs; [by eapply list_elem_of_lookup_2|done].
  - apply Hdirs; [by eapply list_elem_of_lookup_2|done].
  - congruence.
Qed.

Lemma reachable_directory_records_unique_witness :
  let reg := registry (run_loop (started (tmp_world 128))
                         [Meanwhile (λ k, ext_create k log_txt (Regular []));
                          Handles (InotifyEvent 1 IN_CREATE (chars "log.txt"))]) in
  (chars "/tmp" ∉ [log_txt])
  ∧ name <$> reg = [log_txt; chars "/tmp"]
  ∧ length (filter (λ w, name w = chars "/tmp") reg) ≤ 1.
Proof.
  intros reg.
  assert (chars "/tmp" ∉ [log_txt]) as HD.
  { intros [H|H]%elem_of_cons; [discriminate H|by apply elem_of_nil in H]. }
  split; [exact HD|]. split; [vm_compute; reflexivity|].
  destruct (reachable_directory_records_unique (tmp_world 128) [log_txt]
              [Meanwhile (λ k, ext_create k log_txt (Regular []));
               Handles (InotifyEvent 1 IN_CREATE (chars "log.txt"))] (chars "/tmp"))
    as [_ H].
  destruct (H HD) as [_ Hcount]. exact Hcount.
Defined.
